(** * Batched packet I/O on Windows: control-message codec, receive pipeline,
    send path

    A shallow embedding of [sys_conn_helper_windows.go] (the control-message
    codec and the capability probes) and of the out-of-band connection
    ([newConn], [oobConn.ReadPacket], [oobConn.WritePacket]).

    Conventions.
    - A byte is a [Z] in [0, 256); machine integers are [Z] with their
      wrap-around written out.  The target is windows/amd64: [uintptr] and
      [int] are 64 bits wide, memory is little-endian.
    - A Go slice is a window on an underlying array: [mem] holds the array
      from the slice's first element to the array's end (so the capacity is
      [length mem]) and [len] is the slice length.
    - A Go call either returns normally, returns an error, or panics; this is
      the three-way [outcome].  System calls are inputs of the model: each
      operation takes what the operating system answers. *)

From Stdlib Require Import String ZArith List Lia Bool.
Import ListNotations.
Local Open Scope Z_scope.

(** ** Machine integers *)

Definition uint8 (x : Z) : Z := x mod 2 ^ 8.
Definition uint16 (x : Z) : Z := x mod 2 ^ 16.
Definition uint32 (x : Z) : Z := x mod 2 ^ 32.
Definition uintptr (x : Z) : Z := x mod 2 ^ 64.
Definition int32 (x : Z) : Z := (x + 2 ^ 31) mod 2 ^ 32 - 2 ^ 31.
(** [int(x)] for a [uintptr] [x]. *)
Definition int (x : Z) : Z := (x + 2 ^ 63) mod 2 ^ 64 - 2 ^ 63.
(** [^x] on [uintptr]. *)
Definition uintptr_not (x : Z) : Z := Z.lxor (uintptr x) (2 ^ 64 - 1).

(** ** Errors, panics, outcomes *)

Inductive error : Type :=
| EINVAL                       (* syscall.EINVAL *)
| errorString (msg : string)   (* errors.New(msg) *)
| osError (code : Z).          (* an error handed back by the operating system *)

Inductive panic : Type :=
| index_out_of_range
| slice_bounds_out_of_range
| nil_pointer_dereference
| type_assertion_failed
| panicMsg (msg : string)      (* panic(msg) *)
| read_outside_allocation.     (* unsafe dereference beyond the underlying array,
                                  see "Parsing one record" *)

Inductive outcome (A : Type) : Type :=
| Ok (a : A)
| Err (e : error)
| Panic (p : panic).
Arguments Ok {A} a.
Arguments Err {A} e.
Arguments Panic {A} p.

(** ** Slices *)

Record slice (A : Type) : Type := mkSlice { mem : list A; len : nat }.
Arguments mkSlice {A} mem len.
Arguments mem {A} s.
Arguments len {A} s.

Definition nilSlice {A : Type} : slice A := mkSlice [] 0.
Definition cap {A : Type} (b : slice A) : nat := length (mem b).
(** The elements of the slice, [b[0]] to [b[len-1]]. *)
Definition elems {A : Type} (b : slice A) : list A := firstn (len b) (mem b).
(** A slice that fills its array, as [make] and a first [append] return. *)
Definition sliceOf {A : Type} (l : list A) : slice A := mkSlice l (length l).

(** [b[i]] *)
Definition index {A : Type} (b : slice A) (i : Z) : outcome A :=
  if (0 <=? i) && (i <? Z.of_nat (len b)) then
    match nth_error (mem b) (Z.to_nat i) with
    | Some x => Ok x
    | None => Panic index_out_of_range
    end
  else Panic index_out_of_range.

(** [b[lo:hi]] *)
Definition reslice {A : Type} (b : slice A) (lo hi : Z) : outcome (slice A) :=
  if (0 <=? lo) && (lo <=? hi) && (hi <=? Z.of_nat (cap b)) then
    Ok (mkSlice (skipn (Z.to_nat lo) (mem b)) (Z.to_nat (hi - lo)))
  else Panic slice_bounds_out_of_range.

(** [b[lo:]] *)
Definition sliceFrom {A : Type} (b : slice A) (lo : Z) : outcome (slice A) :=
  if lo <=? Z.of_nat (len b) then reslice b lo (Z.of_nat (len b))
  else Panic slice_bounds_out_of_range.

(** [b[:hi]] *)
Definition sliceTo {A : Type} (b : slice A) (hi : Z) : outcome (slice A) :=
  reslice b 0 hi.

(** ** Little-endian memory access *)

Fixpoint le_decode (bs : list Z) : Z :=
  match bs with
  | [] => 0
  | b :: rest => b + 256 * le_decode rest
  end.

Fixpoint le_encode (width : nat) (v : Z) : list Z :=
  match width with
  | O => []
  | S w => v mod 256 :: le_encode w (v / 256)
  end.

(** An unchecked read of [width] bytes at offset [off] of the memory [m]:
    [None] when the read leaves the underlying array. *)
Definition load (m : list Z) (off width : nat) : option Z :=
  if (off + width <=? length m)%nat
  then Some (le_decode (firstn width (skipn off m)))
  else None.

(** An unchecked write of the bytes [bs] at offset [off]. *)
Definition store (m : list Z) (off : nat) (bs : list Z) : list Z :=
  firstn off m ++ bs ++ skipn (off + length bs) m.

(** ** Platform constants (golang.org/x/sys/windows, syscall) *)

Module windows.
Definition IPPROTO_IP : Z := 0.
Definition IPPROTO_UDP : Z := 17.
Definition IPPROTO_IPV6 : Z := 41.
Definition IP_TOS : Z := 3.
Definition IP_PKTINFO : Z := 19.
Definition IPV6_PKTINFO : Z := 19.
Definition UDP_SEND_MSG_SIZE : Z := 2.
End windows.

Definition GSO_SIZE : Z := 1500.
Definition UDP_SEND_MSG_SIZE : Z := windows.UDP_SEND_MSG_SIZE.
Definition batchSize : Z := 1.

Definition ecnMask : Z := 3.
Definition oobBufferSize : Z := 128.
Definition IP_RECVECN : Z := 50.
Definition IPV6_RECVECN : Z := 50.
Definition IPV6_RECVTCLASS : Z := 40.

(** ** The control-message header *)

Record Cmsghdr : Type := mkCmsghdr {
  Len : Z;      (* uint32, offset 0 *)
  Level : Z;    (* int32,  offset 4 *)
  Type_ : Z     (* int32,  offset 8 *)
}.

(** [reflect.TypeOf(cmsghdr).Align()] and [.Size()] for the layout above. *)
Definition cmsgAlign : Z := 4.
Definition cmsgSize : Z := 12.

Definition cmsgDataAlign (len : Z) : Z :=
  let alignPointer := 4 in      (* reflect.TypeOf(uint32var).Align() *)
  Z.land (uintptr (len + uintptr alignPointer - 1))
         (uintptr_not (uintptr alignPointer - 1)).

Definition cmsgHdrAlign (len : Z) : Z :=
  let align := cmsgAlign in
  Z.land (uintptr (len + uintptr align - 1))
         (uintptr_not (uintptr align - 1)).

Definition cmsgLen (length : Z) : Z :=
  uintptr (cmsgDataAlign cmsgSize + length).

Definition cmsgSpace (length : Z) : Z :=
  cmsgDataAlign (uintptr (cmsgSize + cmsgHdrAlign length)).

(** Dereferencing a Cmsghdr pointer [p]: the twelve bytes at [p] read as a
    header. *)
Definition derefCmsghdr (p : list Z) : option Cmsghdr :=
  match load p 0 4, load p 4 4, load p 8 4 with
  | Some l, Some lv, Some t => Some (mkCmsghdr (uint32 l) (int32 lv) (int32 t))
  | _, _, _ => None
  end.

(** ** Building records *)

Definition appendUDPSegmentSizeMsg (b : list Z) (size : Z) : list Z :=
  let startLen := length b in
  let dataLen := 2 in
  let b := b ++ repeat 0 (Z.to_nat (cmsgSpace dataLen)) in
  (* h points at b[startLen], viewed as a Cmsghdr *)
  let b := store b (startLen + 4) (le_encode 4 windows.IPPROTO_UDP) in
  let b := store b (startLen + 8) (le_encode 4 UDP_SEND_MSG_SIZE) in
  let b := store b startLen (le_encode 4 (uint32 (cmsgLen dataLen))) in
  let offset := (startLen + Z.to_nat (int (cmsgLen 0)))%nat in
  store b offset (le_encode 2 size).

(** ** Parsing one record

    Both functions return, next to their outcome, their footprint: how many
    bytes, counted from [&b[0]], they dereference.  [&b[0]] itself is a
    checked index; the reads through the header pointer are not checked.

    A read through the header pointer that leaves the underlying array is
    outside the language's memory model: the process faults, or it goes on
    with whatever bytes lie behind the array.  Only the read of [h.Len] can
    do so, on an array of fewer than four bytes, and going on then ends in
    [EINVAL], the buffer being shorter than a header.  The model does not
    say which course is taken: it stops at such a read with
    [read_outside_allocation], which stands for either and is not a panic
    that a caller could recover from. *)

Definition socketControlMessageHeaderAndData (b : slice Z)
  : nat * outcome (list Z * slice Z) :=
  match index b 0 with
  | Ok _ =>
      let h := mem b in
      match load h 0 4 with                     (* h.Len *)
      | None => (4%nat, Panic read_outside_allocation)
      | Some raw =>
          let hLen := uint32 raw in
          if (uintptr hLen <? cmsgSize) || (Z.of_nat (len b) <? hLen)
          then (4%nat, Err EINVAL)
          else
            match reslice b (cmsgDataAlign cmsgSize) hLen with
            | Ok d => (4%nat, Ok (h, d))
            | Err e => (4%nat, Err e)
            | Panic p => (4%nat, Panic p)
            end
      end
  | Err e => (0%nat, Err e)
  | Panic p => (0%nat, Panic p)
  end.

Definition ParseOneSocketControlMessage (b : slice Z)
  : nat * outcome (Cmsghdr * slice Z * slice Z) :=
  match socketControlMessageHeaderAndData b with
  | (fp, Err e) => (fp, Err e)
  | (fp, Panic p) => (fp, Panic p)
  | (fp, Ok (h, dbuf)) =>
      match derefCmsghdr h with
      | None => (12%nat, Panic read_outside_allocation)
      | Some hdr =>
          let i := int (cmsgDataAlign (uintptr (Len hdr))) in
          if i <? Z.of_nat (len b) then
            match sliceFrom b i with
            | Ok remainder => (12%nat, Ok (hdr, dbuf, remainder))
            | Err e => (12%nat, Err e)
            | Panic p => (12%nat, Panic p)
            end
          else (12%nat, Ok (hdr, dbuf, nilSlice))
      end
  end.

(** ** Packet types *)

Module protocol.
(** [protocol.ECN]; its zero value is [ECNUnsupported]. *)
Inductive ECN : Type := ECNUnsupported | ECNNon | ECT1 | ECT0 | ECNCE.

Definition ECN_eqb (a b : ECN) : bool :=
  match a, b with
  | ECNUnsupported, ECNUnsupported | ECNNon, ECNNon | ECT1, ECT1
  | ECT0, ECT0 | ECNCE, ECNCE => true
  | _, _ => false
  end.
End protocol.

(** [netip.Addr]: the zero address, an IPv4 address or an IPv6 address. *)
Inductive netipAddr : Type :=
| zeroAddr
| addr4 (b : list Z)
| addr16 (b : list Z).

Definition AddrFrom4 (b : list Z) : netipAddr := addr4 b.
Definition AddrFrom16 (b : list Z) : netipAddr := addr16 b.

(** [Addr.Unmap]: an IPv4-mapped IPv6 address becomes the IPv4 address. *)
Definition Unmap (a : netipAddr) : netipAddr :=
  match a with
  | addr16 b =>
      if forallb (Z.eqb 0) (firstn 10 b) && (nth 10 b 0 =? 255) && (nth 11 b 0 =? 255)
      then addr4 (skipn 12 b)
      else a
  | _ => a
  end.

Record UDPAddr : Type := mkUDPAddr { IP : list Z; Port : Z }.

(** A [net.Addr] interface value: nil, a [*net.UDPAddr] (which may itself be
    a nil pointer), or a value of another dynamic type. *)
Inductive netAddr : Type :=
| nilAddr
| udpAddr (a : option UDPAddr)
| otherAddr (network : string).

(** [IP.To4() != nil] *)
Definition To4_nonnil (ip : list Z) : bool :=
  (length ip =? 4)%nat
  || ((length ip =? 16)%nat && forallb (Z.eqb 0) (firstn 10 ip)
      && (nth 10 ip 0 =? 255) && (nth 11 ip 0 =? 255)).

Record packetBuffer : Type := mkPacketBuffer { bufId : nat; Data : slice Z }.

Record packetInfo : Type := mkPacketInfo { addr : netipAddr; ifIndex : Z }.

Record receivedPacket : Type := mkReceivedPacket {
  remoteAddr : netAddr;
  rcvTime : Z;
  data : slice Z;
  buffer : option packetBuffer;
  ecn : protocol.ECN;
  info : packetInfo
}.

(** [receivedPacket{}] *)
Definition zeroPacket : receivedPacket :=
  mkReceivedPacket nilAddr 0 nilSlice None protocol.ECNUnsupported
                   (mkPacketInfo zeroAddr 0).

Definition set_ecn (p : receivedPacket) (e : protocol.ECN) : receivedPacket :=
  mkReceivedPacket (remoteAddr p) (rcvTime p) (data p) (buffer p) e (info p).
Definition set_info (p : receivedPacket) (i : packetInfo) : receivedPacket :=
  mkReceivedPacket (remoteAddr p) (rcvTime p) (data p) (buffer p) (ecn p) i.

(** [ipv4.Message] *)
Record Message : Type := mkMessage {
  Buffers : list (slice Z);
  OOB : slice Z;
  Addr : netAddr;
  N_ : Z;        (* bytes read into Buffers *)
  NN : Z         (* bytes read into OOB *)
}.

Record connCapabilities : Type := mkCaps { DF : bool; GSO : bool; ECN : bool }.

Record oobConn : Type := mkOobConn {
  readPos : Z;                          (* uint8 *)
  messages : slice Message;
  buffers : list (option packetBuffer); (* [batchSize]*packetBuffer *)
  cap_ : connCapabilities
}.

(** ** Process-wide state and observable effects *)

Inductive family : Type := V4 | V6.

Inductive event : Type :=
| ReadBatchCall
| WriteMsgUDPCall (b oob : list Z) (dst : option UDPAddr)
| LogPrintf (f : family) (body : list Z).

(** The two [sync.Once] gates, the number of buffers the pool has handed
    out, and the system calls and log lines so far (newest first). *)
Record globals : Type := mkGlobals {
  invalidCmsgOnceV4 : bool;
  invalidCmsgOnceV6 : bool;
  poolOut : nat;
  trace : list event
}.

Definition initGlobals : globals := mkGlobals false false 0 [].

Definition emit (ev : event) (g : globals) : globals :=
  mkGlobals (invalidCmsgOnceV4 g) (invalidCmsgOnceV6 g) (poolOut g) (ev :: trace g).

(** [invalidCmsgOnceV4.Do(func() { log.Printf(..., body) })] *)
Definition invalidCmsgOnceV4_Do (body : slice Z) (g : globals) : globals :=
  if invalidCmsgOnceV4 g then g
  else mkGlobals true (invalidCmsgOnceV6 g) (poolOut g)
                 (LogPrintf V4 (elems body) :: trace g).

Definition invalidCmsgOnceV6_Do (body : slice Z) (g : globals) : globals :=
  if invalidCmsgOnceV6 g then g
  else mkGlobals (invalidCmsgOnceV4 g) true (poolOut g)
                 (LogPrintf V6 (elems body) :: trace g).

(** ** Packet-info payload *)

Definition parseIPv4PktInfo (body : slice Z) : netipAddr * Z * bool :=
  if negb (len body =? 8)%nat then (zeroAddr, 0, false)
  else (AddrFrom4 (firstn 4 (elems body)),
        le_decode (firstn 4 (elems body)),     (* binary.LittleEndian.Uint32(body) *)
        true).

(** ** What the operating system answers *)

(** What one received datagram writes into a message slot. *)
Record datagram : Type := mkDatagram {
  dPayload : list Z;   (* bytes written into Buffers[0] *)
  dN : Z;
  dOOB : list Z;       (* bytes written into OOB *)
  dNN : Z;
  dAddr : netAddr
}.

(** The answer of one [ReadBatch] call, and the clock. *)
Record recvEnv : Type := mkRecvEnv {
  rbSlots : list datagram;   (* what the call writes, slot by slot *)
  rbN : Z;                   (* n *)
  rbErr : option error;      (* err *)
  now : Z                    (* time.Now() *)
}.

(** Writing [bs] over the start of the memory [m], within its bounds. *)
Definition overwrite (m bs : list Z) : list Z :=
  firstn (length m) (bs ++ skipn (length bs) m).

Definition overwriteSlice (b : slice Z) (bs : list Z) : slice Z :=
  mkSlice (overwrite (mem b) bs) (len b).

Definition writeDatagram (d : datagram) (m : Message) : Message :=
  mkMessage
    (match Buffers m with
     | b0 :: rest => overwriteSlice b0 (dPayload d) :: rest
     | [] => []
     end)
    (overwriteSlice (OOB m) (dOOB d)) (dAddr d) (dN d) (dNN d).

Fixpoint writeDatagrams (ds : list datagram) (ms : list Message) : list Message :=
  match ds, ms with
  | d :: ds', m :: ms' => writeDatagram d m :: writeDatagrams ds' ms'
  | _, _ => ms
  end.

(** The memory of [ms] after [ReadBatch(ms, 0)]: only the [len ms] slots
    handed to the call are written. *)
Definition ReadBatch_effect (e : recvEnv) (ms : slice Message) : slice Message :=
  mkSlice (writeDatagrams (rbSlots e) (firstn (len ms) (mem ms)) ++ skipn (len ms) (mem ms))
          (len ms).

(** [l[i] = x] on an array or slice memory. *)
Fixpoint assign {A : Type} (l : list A) (i : nat) (x : A) : list A :=
  match l, i with
  | [], _ => []
  | _ :: t, O => x :: t
  | h :: t, S j => h :: assign t j x
  end.

(** The parts of [internal/protocol] (not under src/) that the connection
    uses, as an interface: the two conversions between ECN values and the
    ECN bits of the IP header, and the size of a packet buffer.
    [ToHeaderBits] gives the bits of the four ECN codepoints; the method
    call, which has no result on [ECNUnsupported], is [ECN_ToHeaderBits]. *)
Class Protocol : Type := mkProtocol {
  ParseECNHeaderBits : Z -> protocol.ECN;
  ToHeaderBits : protocol.ECN -> Z;
  MaxPacketBufferSize : nat
}.

(** Modelled from the spec: the buffer pool ([getPacketBuffer], not under
    src/) "supplies and reclaims fixed-size packet buffers"; the [k]-th
    buffer handed out is an empty slice over [MaxPacketBufferSize] bytes. *)
Definition getPacketBuffer {P : Protocol} (g : globals) : packetBuffer * globals :=
  (mkPacketBuffer (poolOut g) (mkSlice (repeat 0 MaxPacketBufferSize) 0),
   mkGlobals (invalidCmsgOnceV4 g) (invalidCmsgOnceV6 g) (S (poolOut g)) (trace g)).

(** ** Construction *)

(** What the operating system answers during [newConn]. *)
Record connEnv : Type := mkConnEnv {
  syscallConnErr : option error;
  localAddr : netAddr;
  controlErr : option error;
  errECNIPv4 : option error;
  errECNIPv6 : option error;
  errPIIPv4 : option error;
  errPIIPv6 : option error;
  socket6Err : option error;       (* the probe's AF_INET6 socket *)
  socket4Err : option error;       (* the probe's AF_INET socket *)
  setsockoptErr : option error     (* UDP_SEND_MSG_SIZE on the probe socket *)
}.

Definition isNil (e : option error) : bool :=
  match e with None => true | Some _ => false end.

Definition getMaxGSOSegments (e : connEnv) : Z :=
  if negb (isNil (socket6Err e)) && negb (isNil (socket4Err e)) then 1
  else if negb (isNil (setsockoptErr e)) then 1
  else 512.

Definition isGSOEnabled (e : connEnv) : bool :=
  let gsoSegmentSize := getMaxGSOSegments e in
  if gsoSegmentSize =? 512 then true else false.

Definition isECNEnabled : bool := true.

(** [IP.IsUnspecified]: 0.0.0.0 (in its 4-byte or IPv4-mapped form) or ::. *)
Definition IsUnspecified (ip : list Z) : bool :=
  (((length ip =? 4)%nat || (length ip =? 16)%nat) && forallb (Z.eqb 0) ip)
  || ((length ip =? 16)%nat && forallb (Z.eqb 0) (firstn 10 ip)
      && (nth 10 ip 0 =? 255) && (nth 11 ip 0 =? 255)
      && forallb (Z.eqb 0) (skipn 12 ip)).

(** The connection [newConn] returns when nothing fails. *)
Definition initConn (supportsDF gso : bool) : oobConn :=
  let msgs :=
    repeat (mkMessage [nilSlice] (sliceOf (repeat 0 (Z.to_nat oobBufferSize))) nilAddr 0 0)
           (Z.to_nat batchSize) in
  mkOobConn (uint8 batchSize) (sliceOf msgs)
            (repeat None (Z.to_nat batchSize))
            (mkCaps supportsDF gso isECNEnabled).

Definition newConn (e : connEnv) (supportsDF : bool) : outcome oobConn :=
  match syscallConnErr e with
  | Some err => Err err
  | None =>
      match (match localAddr e with
             | udpAddr (Some a) => Ok (IsUnspecified (IP a))
             | udpAddr None => Panic nil_pointer_dereference
             | _ => Ok false
             end) with
      | Ok needsPacketInfo =>
          match controlErr e with
          | Some err => Err err
          | None =>
              if negb (isNil (errECNIPv4 e)) && negb (isNil (errECNIPv6 e))
              then Err (errorString "activating ECN failed for both IPv4 and IPv6")
              else if needsPacketInfo && negb (isNil (errPIIPv4 e))
                      && negb (isNil (errPIIPv6 e))
              then Err (errorString "activating packet info failed for both IPv4 and IPv6")
              else Ok (initConn supportsDF (isGSOEnabled e))
          end
      | Err err => Err err
      | Panic p => Panic p
      end
  end.

Definition capabilities (c : oobConn) : connCapabilities := cap_ c.

(** ** Receiving *)

Definition set_conn (c : oobConn) (rp : Z) (ms : slice Message)
  (bs : list (option packetBuffer)) : oobConn :=
  mkOobConn rp ms bs (cap_ c).

(** The body of the refill loop for index [i]. *)
Definition refillSlot {P : Protocol} (i : Z) (c : oobConn) (g : globals)
  : oobConn * globals * outcome unit :=
  let '(buf, g) := getPacketBuffer g in
  match sliceTo (Data buf) (Z.of_nat MaxPacketBufferSize) with
  | Ok d =>
      let buf := mkPacketBuffer (bufId buf) d in
      if i <? Z.of_nat (length (buffers c)) then
        let c := set_conn c (readPos c) (messages c)
                          (assign (buffers c) (Z.to_nat i) (Some buf)) in
        match index (messages c) i with
        | Ok m =>
            match Buffers m with
            | _ :: rest =>
                let m := mkMessage (Data buf :: rest) (OOB m) (Addr m) (N_ m) (NN m) in
                (set_conn c (readPos c)
                          (mkSlice (assign (mem (messages c)) (Z.to_nat i) m)
                                   (len (messages c)))
                          (buffers c),
                 g, Ok tt)
            | [] => (c, g, Panic index_out_of_range)
            end
        | Err e => (c, g, Err e)
        | Panic p => (c, g, Panic p)
        end
      else (c, g, Panic index_out_of_range)
  | Err e => (c, g, Err e)
  | Panic p => (c, g, Panic p)
  end.

(** [for i := uint8(0); i < c.readPos; i++ { ... }], with [todo] iterations
    left. *)
Fixpoint refillLoop {P : Protocol} (todo : nat) (i : Z) (c : oobConn) (g : globals)
  : oobConn * globals * outcome unit :=
  match todo with
  | O => (c, g, Ok tt)
  | S todo' =>
      match refillSlot i c g with
      | (c, g, Ok _) => refillLoop todo' (uint8 (i + 1)) c g
      | other => other
      end
  end.

(** Lines 116-132: the refill taken when all messages are read.  [Ok None]
    falls through to the slot; [Ok (Some p)] and [Err] return at once. *)
Definition readNextBatch {P : Protocol} (e : recvEnv) (c : oobConn) (g : globals)
  : oobConn * globals * outcome (option receivedPacket) :=
  match sliceTo (messages c) batchSize with
  | Ok ms =>
      let c := set_conn c (readPos c) ms (buffers c) in
      match refillLoop (Z.to_nat (readPos c)) 0 c g with
      | (c, g, Ok _) =>
          let c := set_conn c 0 (messages c) (buffers c) in
          let g := emit ReadBatchCall g in
          let c := set_conn c (readPos c) (ReadBatch_effect e (messages c)) (buffers c) in
          if (rbN e =? 0) || negb (isNil (rbErr e)) then
            match rbErr e with
            | Some err => (c, g, Err err)
            | None => (c, g, Ok (Some zeroPacket))
            end
          else
            match sliceTo (messages c) (rbN e) with
            | Ok ms => (set_conn c (readPos c) ms (buffers c), g, Ok None)
            | Err err => (c, g, Err err)
            | Panic p => (c, g, Panic p)
            end
      | (c, g, Err err) => (c, g, Err err)
      | (c, g, Panic p) => (c, g, Panic p)
      end
  | Err err => (c, g, Err err)
  | Panic p => (c, g, Panic p)
  end.

(** The body of the control-message loop after a record has been parsed:
    the two [if hdr.Level == ...] blocks. *)
Definition handleCmsg {P : Protocol} (hdr : Cmsghdr) (body : slice Z)
  (p : receivedPacket) (g : globals)
  : globals * outcome receivedPacket :=
  let '(g, r) :=
    if Level hdr =? windows.IPPROTO_IP then
      if Type_ hdr =? windows.IP_TOS then
        match index body 0 with
        | Ok b0 => (g, Ok (set_ecn p (ParseECNHeaderBits (Z.land b0 ecnMask))))
        | Err e => (g, Err e)
        | Panic q => (g, Panic q)
        end
      else if Type_ hdr =? windows.IP_PKTINFO then
        match parseIPv4PktInfo body with
        | (ip, ifIdx, true) => (g, Ok (set_info p (mkPacketInfo ip ifIdx)))
        | (_, _, false) => (invalidCmsgOnceV4_Do body g, Ok p)
        end
      else (g, Ok p)
    else (g, Ok p) in
  match r with
  | Ok p =>
      if Level hdr =? windows.IPPROTO_IPV6 then
        if Type_ hdr =? IPV6_RECVTCLASS then
          match index body 0 with
          | Ok b0 => (g, Ok (set_ecn p (ParseECNHeaderBits (Z.land b0 ecnMask))))
          | Err e => (g, Err e)
          | Panic q => (g, Panic q)
          end
        else if Type_ hdr =? windows.IPV6_PKTINFO then
          if (len body =? 20)%nat then
            (g, Ok (set_info p
                      (mkPacketInfo (Unmap (AddrFrom16 (firstn 16 (elems body))))
                                    (le_decode (firstn 4 (skipn 16 (elems body)))))))
          else (invalidCmsgOnceV6_Do body g, Ok p)
        else (g, Ok p)
      else (g, Ok p)
  | other => (g, other)
  end.

(** [for len(data) > 0 { ... data = remainder }], with [fuel] iterations
    allowed; [cmsgLoop_fuel] below shows that [len data] of them are enough. *)
Fixpoint cmsgLoopFuel {P : Protocol} (fuel : nat) (dat : slice Z) (p : receivedPacket) (g : globals)
  : globals * outcome receivedPacket :=
  if (len dat =? 0)%nat then (g, Ok p)
  else
    match fuel with
    | O => (g, Panic (panicMsg "control-message loop: out of fuel"))
    | S fuel' =>
        match snd (ParseOneSocketControlMessage dat) with
        | Ok (hdr, body, remainder) =>
            match handleCmsg hdr body p g with
            | (g, Ok p) => cmsgLoopFuel fuel' remainder p g
            | other => other
            end
        | Err e => (g, Err e)
        | Panic q => (g, Panic q)
        end
    end.

Definition cmsgLoop {P : Protocol} (dat : slice Z) (p : receivedPacket) (g : globals)
  : globals * outcome receivedPacket :=
  cmsgLoopFuel (len dat) dat p g.

(** Lines 134-144: the slot at the cursor, the cursor's advance, and the
    packet before its control messages are read.  Returns the ancillary data
    and that packet. *)
Definition takeSlot (e : recvEnv) (c : oobConn)
  : oobConn * outcome (slice Z * receivedPacket) :=
  match index (messages c) (readPos c) with
  | Ok msg =>
      match nth_error (buffers c) (Z.to_nat (readPos c)) with
      | Some buf =>
          let c := set_conn c (uint8 (readPos c + 1)) (messages c) (buffers c) in
          match sliceTo (OOB msg) (NN msg) with
          | Ok dat =>
              match Buffers msg with
              | b0 :: _ =>
                  match sliceTo b0 (N_ msg) with
                  | Ok payload =>
                      (c, Ok (dat, mkReceivedPacket (Addr msg) (now e) payload buf
                                     protocol.ECNUnsupported (mkPacketInfo zeroAddr 0)))
                  | Err err => (c, Err err)
                  | Panic q => (c, Panic q)
                  end
              | [] => (c, Panic index_out_of_range)
              end
          | Err err => (c, Err err)
          | Panic q => (c, Panic q)
          end
      | None => (c, Panic index_out_of_range)
      end
  | Err err => (c, Err err)
  | Panic q => (c, Panic q)
  end.

(** Lines 116-144: up to the packet before its control messages are read.
    [inl p] is the early return [(p, nil)] of the refill; [inr (dat, p)] is
    the ancillary data of the slot taken and the packet built from it. *)
Definition nextSlot {P : Protocol} (e : recvEnv) (c : oobConn) (g : globals)
  : oobConn * globals * outcome (receivedPacket + slice Z * receivedPacket) :=
  let '(c, g, r) :=
    if Z.of_nat (len (messages c)) =? readPos c
    then readNextBatch e c g
    else (c, g, Ok None) in
  match r with
  | Ok None =>
      match takeSlot e c with
      | (c, Ok slot) => (c, g, Ok (inr slot))
      | (c, Err err) => (c, g, Err err)
      | (c, Panic q) => (c, g, Panic q)
      end
  | Ok (Some p) => (c, g, Ok (inl p))
  | Err err => (c, g, Err err)
  | Panic q => (c, g, Panic q)
  end.

(** [Ok p] is the return [(p, nil)]; [Err e] is the return
    [(receivedPacket{}, e)]. *)
Definition ReadPacket {P : Protocol} (e : recvEnv) (c : oobConn) (g : globals)
  : oobConn * globals * outcome receivedPacket :=
  match nextSlot e c g with
  | (c, g, Ok (inr (dat, p))) => let '(g, r) := cmsgLoop dat p g in (c, g, r)
  | (c, g, Ok (inl p)) => (c, g, Ok p)
  | (c, g, Err err) => (c, g, Err err)
  | (c, g, Panic q) => (c, g, Panic q)
  end.

(** A sequence of [ReadPacket] calls, one environment per call: for each
    call, the state at entry, the state at exit and the result. *)
Record callRecord : Type := mkCall {
  entryConn : oobConn;
  entryGlobals : globals;
  exitConn : oobConn;
  exitGlobals : globals;
  result : outcome receivedPacket
}.

Fixpoint readPackets {P : Protocol} (es : list recvEnv) (c : oobConn) (g : globals)
  : list callRecord :=
  match es with
  | [] => []
  | e :: es' =>
      let '(c', g', r) := ReadPacket e c g in
      mkCall c g c' g' r :: readPackets es' c' g'
  end.

(** ** Sending *)

(** Modelled from the spec: the method [ToHeaderBits] of [protocol.ECN]
    ([internal/protocol], not under src/).  The ECN codepoints are "Not-ECT,
    ECT(0), ECT(1), CE"; [ECNUnsupported] is none of them and has no header
    bits.  The call [val.ToHeaderBits()] panics on it, and returns the bits
    that the interface gives for the four codepoints. *)
Definition ECN_ToHeaderBits {P : Protocol} (val : protocol.ECN) : outcome Z :=
  if protocol.ECN_eqb val protocol.ECNUnsupported
  then Panic (panicMsg "ECN unsupported")
  else Ok (ToHeaderBits val).

(** The two ECN builders.  [h.Len = cmsgLen(dataLen)] is written without the
    conversion that [SetLen] makes: the [uintptr] is stored in the four
    bytes of the field as it is (its value is 16).  The call of
    [ToHeaderBits] is the last step, after the record was appended and its
    header written; a panic there leaves no result. *)
Definition appendIPv4ECNMsg {P : Protocol} (b : list Z) (val : protocol.ECN)
  : outcome (list Z) :=
  let startLen := length b in
  let dataLen := 4 in
  let b := b ++ repeat 0 (Z.to_nat (cmsgLen dataLen)) in
  let b := store b (startLen + 4) (le_encode 4 windows.IPPROTO_IP) in
  let b := store b (startLen + 8) (le_encode 4 windows.IP_TOS) in
  let b := store b startLen (le_encode 4 (cmsgLen dataLen)) in
  let offset := (startLen + Z.to_nat (int (cmsgSpace 0)))%nat in
  match ECN_ToHeaderBits val with
  | Ok bits => Ok (store b offset [bits])
  | Err err => Err err
  | Panic q => Panic q
  end.

Definition appendIPv6ECNMsg {P : Protocol} (b : list Z) (val : protocol.ECN)
  : outcome (list Z) :=
  let startLen := length b in
  let dataLen := 4 in
  let b := b ++ repeat 0 (Z.to_nat (cmsgLen dataLen)) in
  let b := store b (startLen + 4) (le_encode 4 windows.IPPROTO_IPV6) in
  let b := store b (startLen + 8) (le_encode 4 IPV6_RECVTCLASS) in
  let b := store b startLen (le_encode 4 (cmsgLen dataLen)) in
  let offset := (startLen + Z.to_nat (int (cmsgSpace 0)))%nat in
  match ECN_ToHeaderBits val with
  | Ok bits => Ok (store b offset [bits])
  | Err err => Err err
  | Panic q => Panic q
  end.

(** What [WriteMsgUDP] answers: [n] and [err]. *)
Record sendEnv : Type := mkSendEnv { wrN : Z; wrErr : option error }.

(** The type assertion of [addr] to a UDP address pointer: the comma-ok form
    is true with the pointer where this is [Some]; the unchecked form panics
    where this is [None]. *)
Definition asUDPAddr (a : netAddr) : option (option UDPAddr) :=
  match a with
  | udpAddr p => Some p
  | _ => None
  end.

(** The result is what the call returns, [(n, err)]. *)
Definition WritePacket {P : Protocol} (e : sendEnv) (c : oobConn) (g : globals)
  (b : list Z) (dst : netAddr) (packetInfoOOB : list Z) (gsoSize : Z)
  (ecnVal : protocol.ECN) : globals * outcome (Z * option error) :=
  let oob := packetInfoOOB in
  match (if 0 <? gsoSize then
           if negb (GSO (capabilities c)) then Panic (panicMsg "GSO disabled")
           else Ok (appendUDPSegmentSizeMsg oob gsoSize)
         else Ok oob) with
  | Ok oob =>
      match (if negb (protocol.ECN_eqb ecnVal protocol.ECNUnsupported) then
               if negb (ECN (capabilities c))
               then Panic (panicMsg "tried to send an ECN-marked packet although ECN is disabled")
               else
                 match asUDPAddr dst with
                 | Some (Some remoteUDPAddr) =>
                     if To4_nonnil (IP remoteUDPAddr)
                     then appendIPv4ECNMsg oob ecnVal
                     else appendIPv6ECNMsg oob ecnVal
                 | Some None => Panic nil_pointer_dereference
                 | None => Ok oob
                 end
             else Ok oob) with
      | Ok oob =>
          match asUDPAddr dst with
          | Some to =>
              (emit (WriteMsgUDPCall b oob to) g, Ok (wrN e, wrErr e))
          | None => (g, Panic type_assertion_failed)
          end
      | Err err => (g, Err err)
      | Panic q => (g, Panic q)
      end
  | Err err => (g, Err err)
  | Panic q => (g, Panic q)
  end.

(** ** Notions used in the statements *)

(** The records of a chain of control messages, as repeated calls of
    [ParseOneSocketControlMessage] yield them, and how the chain ends:
    [Ok tt] at an empty remainder, [Err] at a record the parser rejects,
    [Panic] where the parser panics. *)
Inductive chainOf : slice Z -> list (Cmsghdr * slice Z) -> outcome unit -> Prop :=
| chain_end dat :
    len dat = 0%nat -> chainOf dat [] (Ok tt)
| chain_err dat e :
    len dat <> 0%nat ->
    snd (ParseOneSocketControlMessage dat) = Err e ->
    chainOf dat [] (Err e)
| chain_panic dat q :
    len dat <> 0%nat ->
    snd (ParseOneSocketControlMessage dat) = Panic q ->
    chainOf dat [] (Panic q)
| chain_record dat hdr body remainder rs fin :
    len dat <> 0%nat ->
    snd (ParseOneSocketControlMessage dat) = Ok (hdr, body, remainder) ->
    chainOf remainder rs fin ->
    chainOf dat ((hdr, body) :: rs) fin.

(** The loop body applied to the records of a chain, in order. *)
Fixpoint handleAll {P : Protocol} (rs : list (Cmsghdr * slice Z)) (p : receivedPacket) (g : globals)
  : globals * outcome receivedPacket :=
  match rs with
  | [] => (g, Ok p)
  | (hdr, body) :: rs' =>
      match handleCmsg hdr body p g with
      | (g, Ok p) => handleAll rs' p g
      | other => other
      end
  end.

(** How a chain's end turns the packet into the call's result. *)
Definition finish (fin : outcome unit) (r : globals * outcome receivedPacket)
  : globals * outcome receivedPacket :=
  match r with
  | (g, Ok p) =>
      match fin with
      | Ok _ => (g, Ok p)
      | Err e => (g, Err e)
      | Panic q => (g, Panic q)
      end
  | other => other
  end.

(** The (level, type) pairs the loop recognises. *)
Definition isECNRecord (hdr : Cmsghdr) : bool :=
  ((Level hdr =? windows.IPPROTO_IP) && (Type_ hdr =? windows.IP_TOS))
  || ((Level hdr =? windows.IPPROTO_IPV6) && (Type_ hdr =? IPV6_RECVTCLASS)).

Definition isPktInfoV4 (hdr : Cmsghdr) : bool :=
  (Level hdr =? windows.IPPROTO_IP) && (Type_ hdr =? windows.IP_PKTINFO).

Definition isPktInfoV6 (hdr : Cmsghdr) : bool :=
  (Level hdr =? windows.IPPROTO_IPV6) && (Type_ hdr =? windows.IPV6_PKTINFO).

Definition recognised (hdr : Cmsghdr) : bool :=
  isECNRecord hdr || isPktInfoV4 hdr || isPktInfoV6 hdr.

(** A packet-info record whose payload has the expected size. *)
Definition wellSizedPktInfo (r : Cmsghdr * slice Z) : bool :=
  (isPktInfoV4 (fst r) && (len (snd r) =? 8)%nat)
  || (isPktInfoV6 (fst r) && (len (snd r) =? 20)%nat).

(** A packet-info record whose payload has another size. *)
Definition badPktInfo (r : Cmsghdr * slice Z) : bool :=
  (isPktInfoV4 (fst r) && negb (len (snd r) =? 8)%nat)
  || (isPktInfoV6 (fst r) && negb (len (snd r) =? 20)%nat).

Definition isReadBatchCall (ev : event) : bool :=
  match ev with ReadBatchCall => true | _ => false end.

Definition isLog (f : family) (ev : event) : bool :=
  match ev, f with
  | LogPrintf V4 _, V4 | LogPrintf V6 _, V6 => true
  | _, _ => false
  end.

Definition isWriteCall (ev : event) : bool :=
  match ev with WriteMsgUDPCall _ _ _ => true | _ => false end.

(** Number of [ReadBatch] calls issued so far. *)
Definition receives (g : globals) : nat := length (filter isReadBatchCall (trace g)).

(** Number of diagnostic lines logged so far for the family [f]. *)
Definition logged (f : family) (g : globals) : nat := length (filter (isLog f) (trace g)).

(** The batch-cursor invariant. *)
Definition cursorInv (c : oobConn) : Prop :=
  0 <= readPos c <= Z.of_nat (len (messages c)).

(** The shape [newConn] gives a connection, which [ReadPacket] keeps. *)
Definition shapeInv (c : oobConn) : Prop :=
  cap (messages c) = Z.to_nat batchSize
  /\ (len (messages c) <= cap (messages c))%nat
  /\ length (buffers c) = Z.to_nat batchSize
  /\ Forall (fun m => Buffers m <> []) (mem (messages c)).

Definition wfConn (c : oobConn) : Prop := cursorInv c /\ shapeInv c.

(** The once-gates account for the lines logged. *)
Definition onceInv (g : globals) : Prop :=
  (logged V4 g <= if invalidCmsgOnceV4 g then 1 else 0)%nat
  /\ (logged V6 g <= if invalidCmsgOnceV6 g then 1 else 0)%nat.

(** The once-gates and the log are the same in [g] and [g']. *)
Definition logSame (g g' : globals) : Prop :=
  invalidCmsgOnceV4 g' = invalidCmsgOnceV4 g
  /\ invalidCmsgOnceV6 g' = invalidCmsgOnceV6 g
  /\ logged V4 g' = logged V4 g
  /\ logged V6 g' = logged V6 g.

(** What the two capability checks of [WritePacket] demand of a call. *)
Definition capabilitiesAllow (c : oobConn) (gsoSize : Z) (ecnVal : protocol.ECN) : Prop :=
  (0 < gsoSize -> GSO (capabilities c) = true)
  /\ (ecnVal <> protocol.ECNUnsupported -> ECN (capabilities c) = true).

(** ** Concrete inputs

    The inputs at which the theorems below are exercised: an instance of the
    protocol interface with the RFC 3168 codepoints and 1452-byte buffers, a
    fresh connection without GSO, and received datagrams with given
    ancillary data. *)

Definition exampleProtocol : Protocol :=
  mkProtocol
    (fun bits =>
       if bits =? 0 then protocol.ECNNon
       else if bits =? 1 then protocol.ECT1
       else if bits =? 2 then protocol.ECT0
       else protocol.ECNCE)
    (fun e =>
       match e with
       | protocol.ECT1 => 1
       | protocol.ECT0 => 2
       | protocol.ECNCE => 3
       | _ => 0
       end)
    1452.

Definition freshConn : oobConn := initConn false false.

Definition peer : netAddr := udpAddr (Some (mkUDPAddr [10; 0; 0; 1] 4433)).

(** One datagram with three payload bytes and the ancillary data [oob]. *)
Definition received (oob : list Z) : recvEnv :=
  mkRecvEnv [mkDatagram [1; 2; 3] 3 oob (Z.of_nat (length oob)) peer] 1 None 0.

(** A receive call that times out. *)
Definition timedOut : recvEnv := mkRecvEnv [] 0 (Some (osError 10060)) 0.

(** Lines 116-144 of the first [ReadPacket] call on the fresh connection. *)
Definition slotTaken (e : recvEnv) :=
  nextSlot (P := exampleProtocol) e freshConn initGlobals.
Definition connAfter (e : recvEnv) : oobConn := fst (fst (slotTaken e)).
Definition globalsAfter (e : recvEnv) : globals := snd (fst (slotTaken e)).
Definition dataTaken (e : recvEnv) : slice Z :=
  match snd (slotTaken e) with
  | Ok (inr (dat, _)) => dat
  | _ => nilSlice
  end.
Definition packetTaken (e : recvEnv) : receivedPacket :=
  match snd (slotTaken e) with
  | Ok (inr (_, p)) => p
  | _ => zeroPacket
  end.

(** The record at offset [off] of a buffer laid out by hand: its header and
    the body that follows it. *)
Definition recordAt (dat : slice Z) (off : nat) (hdr : Cmsghdr) : Cmsghdr * slice Z :=
  (hdr, mkSlice (skipn (off + 12) (mem dat)) (Z.to_nat (Len hdr - 12))).

(** An IPv4 packet-info record: address 192.168.1.2, interface index 7. *)
Definition pktinfoRecord : list Z :=
  [20; 0; 0; 0;  0; 0; 0; 0;  19; 0; 0; 0;  192; 168; 1; 2;  7; 0; 0; 0].

(** A packet-info record with a payload of 7 bytes. *)
Definition shortPktinfoRecord : list Z :=
  [19; 0; 0; 0;  0; 0; 0; 0;  19; 0; 0; 0;  1; 2; 3; 4; 5; 6; 7;  0].

(** A record that declares 40 bytes in a buffer of 16. *)
Definition overlongRecord : list Z :=
  [40; 0; 0; 0;  0; 0; 0; 0;  3; 0; 0; 0;  2; 0; 0; 0].

(** An ECN record that declares no payload. *)
Definition emptyEcnRecord : list Z :=
  [12; 0; 0; 0;  0; 0; 0; 0;  3; 0; 0; 0].

(** A malformed chain: the ECN record without payload, then the record that
    declares more bytes than are left. *)
Definition emptyEcnThenOverlong : list Z := emptyEcnRecord ++ overlongRecord.

(** An ECN record with ECT(0), a record of level 99 and type 99, and the
    packet-info record. *)
Definition ecnRecord : list Z :=
  [13; 0; 0; 0;  0; 0; 0; 0;  3; 0; 0; 0;  2; 0; 0; 0].
Definition unknownRecord : list Z :=
  [16; 0; 0; 0;  99; 0; 0; 0;  99; 0; 0; 0;  222; 173; 190; 239].
Definition mixedChain : list Z := ecnRecord ++ unknownRecord ++ pktinfoRecord.

(** The first [nn] bytes of a 128-byte ancillary buffer that holds [oob]:
    the slice [msg.OOB[:nn]]. *)
Definition oobPrefix (oob : list Z) (nn : nat) : slice Z :=
  mkSlice (overwrite (repeat 0 (Z.to_nat oobBufferSize)) oob) nn.

(** The records of the example chains, as the parser yields them. *)
Definition shortPktinfoRecordParsed : Cmsghdr * slice Z :=
  recordAt (dataTaken (received shortPktinfoRecord)) 0 (mkCmsghdr 19 0 19).
Definition mixedBefore : list (Cmsghdr * slice Z) :=
  [recordAt (dataTaken (received mixedChain)) 0 (mkCmsghdr 13 0 3)].
Definition mixedUnknown : Cmsghdr * slice Z :=
  recordAt (dataTaken (received mixedChain)) 16 (mkCmsghdr 16 99 99).
Definition mixedAfter : list (Cmsghdr * slice Z) :=
  [recordAt (dataTaken (received mixedChain)) 32 (mkCmsghdr 20 0 19)].

(** ** Notions used in the further properties *)

(** The record [appendUDPSegmentSizeMsg] writes for [size]. *)
Definition segmentSizeRecord (size : Z) : list Z :=
  [14; 0; 0; 0;  17; 0; 0; 0;  2; 0; 0; 0;  size mod 256; size / 256 mod 256;  0; 0].

(** The records [appendIPv4ECNMsg] and [appendIPv6ECNMsg] write for the
    header bits [bits]. *)
Definition tosRecord (bits : Z) : list Z :=
  [16; 0; 0; 0;  0; 0; 0; 0;  3; 0; 0; 0;  bits; 0; 0; 0].
Definition tclassRecord (bits : Z) : list Z :=
  [16; 0; 0; 0;  41; 0; 0; 0;  40; 0; 0; 0;  bits; 0; 0; 0].

(** A record [r] laid out as the parser expects it: it starts with the
    header [hdr], whose length covers at least the header, and it is as long
    as that length rounded up to the alignment. *)
Definition paddedRecord (r : list Z) (hdr : Cmsghdr) : Prop :=
  derefCmsghdr r = Some hdr
  /\ 12 <= Len hdr
  /\ Z.of_nat (length r) = cmsgDataAlign (Len hdr).

(** A socket bound to 0.0.0.0:443 on which reading of the ECN bits could be
    activated for IPv6 only, with a working GSO probe. *)
Definition exampleConnEnv : connEnv :=
  mkConnEnv None (udpAddr (Some (mkUDPAddr [0; 0; 0; 0] 443))) None
            (Some (osError 10042)) None None None None None None.

(** Every slot still has the ancillary buffer [newConn] gave it: 128 bytes
    long, filling its array. *)
Definition oobInv (c : oobConn) : Prop :=
  Forall (fun m => len (OOB m) = Z.to_nat oobBufferSize
                   /\ cap (OOB m) = Z.to_nat oobBufferSize)
         (mem (messages c)).

(** ** Socket buffer sizes and error classification

    The four buffer functions run one socket-option call inside
    [RawConn.Control]: [controlErr] is what [Control] returns, the other
    argument what the socket-option call answers. *)

Definition forceSetReceiveBuffer (bytes : Z) (controlErr : option error)
  (setsockoptInt : Z -> option error) : option error :=
  match controlErr with
  | Some err => Some err
  | None => setsockoptInt bytes
  end.

Definition forceSetSendBuffer (bytes : Z) (controlErr : option error)
  (setsockoptInt : Z -> option error) : option error :=
  match controlErr with
  | Some err => Some err
  | None => setsockoptInt bytes
  end.

Definition inspectReadBuffer (controlErr : option error)
  (getsockoptInt : Z * option error) : Z * option error :=
  match controlErr with
  | Some err => (0, Some err)
  | None => getsockoptInt
  end.

Definition inspectWriteBuffer (controlErr : option error)
  (getsockoptInt : Z * option error) : Z * option error :=
  match controlErr with
  | Some err => (0, Some err)
  | None => getsockoptInt
  end.

Definition isGSOError (err : error) : bool := false.
Definition isPermissionError (err : error) : bool := false.

(** The method [OOB] of a packet info: nil. *)
Definition packetInfo_OOB (i : packetInfo) : list Z := [].

(** * Theorems *)

(** ** Round trip of the segmentation-size record *)

Lemma appendUDPSegmentSizeMsg_nil (size : Z) :
  appendUDPSegmentSizeMsg [] size =
  [14; 0; 0; 0; 17; 0; 0; 0; 2; 0; 0; 0; size mod 256; size / 256 mod 256; 0; 0].
Proof. reflexivity. Qed.

Lemma le_decode_encode_2 (v : Z) :
  0 <= v < 2 ^ 16 -> le_decode [v mod 256; v / 256 mod 256] = v.
Proof.
  intros Hv. cbn [le_decode].
  rewrite (Z.mod_small (v / 256) 256).
  - pose proof (Z.div_mod v 256). lia.
  - split.
    + apply Z.div_pos; lia.
    + apply Z.div_lt_upper_bound; lia.
Qed.

(** ** Alignment arithmetic *)

Lemma uintptr_small (x : Z) : 0 <= x < 2 ^ 64 -> uintptr x = x.
Proof. intros H. unfold uintptr. apply Z.mod_small. exact H. Qed.

Lemma int_small (x : Z) : 0 <= x < 2 ^ 63 -> int x = x.
Proof. intros H. unfold int. rewrite Z.mod_small; lia. Qed.

Lemma cmsgDataAlign_eq (x : Z) :
  0 <= x < 2 ^ 64 - 3 -> cmsgDataAlign x = 4 * ((x + 3) / 4).
Proof.
  intros Hx. unfold cmsgDataAlign.
  change (uintptr_not (uintptr 4 - 1)) with (Z.land (Z.ones 64) (Z.lnot (Z.ones 2))).
  change (uintptr 4) with 4.
  replace (x + 4 - 1) with (x + 3) by lia.
  rewrite uintptr_small by lia.
  rewrite Z.land_assoc, Z.land_ones by lia.
  rewrite Z.mod_small by lia.
  rewrite <- Z.ldiff_land, Z.ldiff_ones_r by lia.
  rewrite Z.shiftr_div_pow2, Z.shiftl_mul_pow2 by lia.
  change (2 ^ 2) with 4. lia.
Qed.

Lemma cmsgDataAlign_bounds (x : Z) :
  0 <= x < 2 ^ 64 - 3 -> x <= cmsgDataAlign x <= x + 3.
Proof.
  intros Hx. rewrite cmsgDataAlign_eq by exact Hx.
  pose proof (Z.div_mod (x + 3) 4 ltac:(lia)) as Hd.
  pose proof (Z.mod_pos_bound (x + 3) 4 ltac:(lia)) as Hm.
  lia.
Qed.

Lemma uint32_range (x : Z) : 0 <= uint32 x < 2 ^ 32.
Proof. unfold uint32. apply Z.mod_pos_bound. lia. Qed.

(** ** One record *)

Lemma cmsgDataAlign_cmsgSize : cmsgDataAlign cmsgSize = 12.
Proof. reflexivity. Qed.

Lemma nextRecord_offset (l : Z) :
  12 <= l < 2 ^ 32 ->
  l <= int (cmsgDataAlign (uintptr l)) <= l + 3.
Proof.
  intros Hl.
  rewrite uintptr_small by lia.
  pose proof (cmsgDataAlign_bounds l ltac:(lia)) as Hb.
  rewrite int_small by lia. exact Hb.
Qed.

(** What a successful parse returns. *)
Lemma ParseOne_ok (b : slice Z) (hdr : Cmsghdr) (body remainder : slice Z) :
  snd (ParseOneSocketControlMessage b) = Ok (hdr, body, remainder) ->
  12 <= Len hdr <= Z.of_nat (len b)
  /\ derefCmsghdr (mem b) = Some hdr
  /\ body = mkSlice (skipn 12 (mem b)) (Z.to_nat (Len hdr - 12))
  /\ (len body <= cap body)%nat
  /\ (len remainder < len b)%nat.
Proof.
  unfold ParseOneSocketControlMessage, socketControlMessageHeaderAndData.
  destruct (index b 0) as [b0| |]; cbn [snd]; try discriminate.
  destruct (load (mem b) 0 4) as [raw|] eqn:Hraw; cbn [snd]; try discriminate.
  destruct ((uintptr (uint32 raw) <? cmsgSize) || (Z.of_nat (len b) <? uint32 raw)) eqn:Hchk;
    cbn [snd]; try discriminate.
  apply orb_false_iff in Hchk. destruct Hchk as [Hlo Hhi].
  apply Z.ltb_ge in Hlo, Hhi.
  pose proof (uint32_range raw) as Hr.
  rewrite uintptr_small in Hlo by lia. unfold cmsgSize in Hlo.
  rewrite cmsgDataAlign_cmsgSize.
  unfold reslice.
  destruct ((0 <=? 12) && (12 <=? uint32 raw) && (uint32 raw <=? Z.of_nat (cap b))) eqn:Hsl;
    cbn [snd]; try discriminate.
  apply andb_true_iff in Hsl. destruct Hsl as [_ Hcap]. apply Z.leb_le in Hcap.
  unfold derefCmsghdr. rewrite Hraw.
  destruct (load (mem b) 4 4) as [lv|]; cbn [snd]; try discriminate.
  destruct (load (mem b) 8 4) as [ty|]; cbn [snd]; try discriminate.
  cbn [Len].
  pose proof (nextRecord_offset (uint32 raw) ltac:(lia)) as Hoff.
  set (i := int (cmsgDataAlign (uintptr (uint32 raw)))) in *.
  assert (Hbody : (Z.to_nat (uint32 raw - 12) <= length (skipn 12 (mem b)))%nat).
  { rewrite length_skipn. unfold cap in Hcap. lia. }
  destruct (i <? Z.of_nat (len b)) eqn:Hi.
  - apply Z.ltb_lt in Hi. unfold sliceFrom.
    destruct (i <=? Z.of_nat (len b)) eqn:Hle; cbn [snd]; try discriminate.
    unfold reslice.
    destruct ((0 <=? i) && (i <=? Z.of_nat (len b)) && (Z.of_nat (len b) <=? Z.of_nat (cap b)));
      cbn [snd]; try discriminate.
    intros H. injection H as <- <- <-. cbn [Len len mem cap].
    repeat split; try lia; try exact Hbody.
  - apply Z.ltb_ge in Hi. cbn [snd].
    intros H. injection H as <- <- <-. cbn [Len len mem cap nilSlice].
    repeat split; try lia; try exact Hbody.
Qed.

(** The parser's only error is [EINVAL]. *)
Lemma ParseOne_err (b : slice Z) (e : error) :
  snd (ParseOneSocketControlMessage b) = Err e -> e = EINVAL.
Proof.
  unfold ParseOneSocketControlMessage, socketControlMessageHeaderAndData.
  unfold index, sliceFrom, reslice.
  destruct ((0 <=? 0) && (0 <? Z.of_nat (len b))); cbn [snd]; try discriminate.
  destruct (nth_error (mem b) (Z.to_nat 0)); cbn [snd]; try discriminate.
  destruct (load (mem b) 0 4) as [raw|]; cbn [snd]; try discriminate.
  destruct ((uintptr (uint32 raw) <? cmsgSize) || (Z.of_nat (len b) <? uint32 raw));
    cbn [snd].
  - intros H. injection H as <-. reflexivity.
  - destruct ((0 <=? cmsgDataAlign cmsgSize) && (cmsgDataAlign cmsgSize <=? uint32 raw)
              && (uint32 raw <=? Z.of_nat (cap b))); cbn [snd]; try discriminate.
    destruct (derefCmsghdr (mem b)) as [hdr|]; cbn [snd]; try discriminate.
    destruct (int (cmsgDataAlign (uintptr (Len hdr))) <? Z.of_nat (len b));
      cbn [snd]; try discriminate.
    destruct (int (cmsgDataAlign (uintptr (Len hdr))) <=? Z.of_nat (len b));
      cbn [snd]; try discriminate.
    match goal with
    | |- context [if ?c then _ else _] => destruct c; cbn [snd]; discriminate
    end.
Qed.

(** C2. For every 16-bit segmentation size, parsing the buffer that
    [appendUDPSegmentSizeMsg] builds from the empty buffer succeeds: the
    header is the send-size header, its payload decodes (little-endian
    uint16) back to exactly that size, and the remainder is empty. *)
Theorem segment_size_roundtrip (size : Z) :
  0 <= size < 2 ^ 16 ->
  exists hdr body remainder,
    snd (ParseOneSocketControlMessage (sliceOf (appendUDPSegmentSizeMsg [] size)))
    = Ok (hdr, body, remainder)
    /\ hdr = mkCmsghdr 14 windows.IPPROTO_UDP UDP_SEND_MSG_SIZE
    /\ len body = 2%nat
    /\ le_decode (elems body) = size
    /\ len remainder = 0%nat.
Proof.
  intros Hsize. rewrite appendUDPSegmentSizeMsg_nil.
  eexists _, _, _. split; [reflexivity|].
  repeat split.
  cbn [elems len mem firstn Z.to_nat Pos.to_nat Pos.iter_op Nat.add skipn].
  change (firstn (Z.to_nat (14 - 12)) [size mod 256; size / 256 mod 256; 0; 0])
    with [size mod 256; size / 256 mod 256].
  apply le_decode_encode_2. exact Hsize.
Qed.

(** ** Declared lengths and the parser's footprint *)

(** A declared length below the header size or above the buffer length is
    rejected with [EINVAL]. *)
Lemma ParseOne_rejects_declared_length (b : slice Z) (raw : Z) :
  (0 < len b)%nat ->
  load (mem b) 0 4 = Some raw ->
  uint32 raw < cmsgSize \/ Z.of_nat (len b) < uint32 raw ->
  snd (ParseOneSocketControlMessage b) = Err EINVAL.
Proof.
  intros Hlen Hraw Hbad.
  unfold ParseOneSocketControlMessage, socketControlMessageHeaderAndData, index.
  assert (Hmem : exists x, nth_error (mem b) (Z.to_nat 0) = Some x).
  { unfold load in Hraw. destruct (0 + 4 <=? length (mem b))%nat eqn:H4; [|discriminate].
    apply Nat.leb_le in H4. destruct (mem b) as [|x m]; [cbn in H4; lia|].
    exists x. reflexivity. }
  destruct Hmem as [x ->].
  replace ((0 <=? 0) && (0 <? Z.of_nat (len b))) with true
    by (symmetry; apply andb_true_iff; split; [reflexivity | apply Z.ltb_lt; lia]).
  rewrite Hraw.
  pose proof (uint32_range raw) as Hr.
  rewrite uintptr_small by lia.
  replace ((uint32 raw <? cmsgSize) || (Z.of_nat (len b) <? uint32 raw)) with true.
  - reflexivity.
  - symmetry. apply orb_true_iff.
    destruct Hbad as [H|H]; [left|right]; apply Z.ltb_lt; exact H.
Qed.

(** On a buffer of at least four bytes the parser stays inside the buffer. *)
Lemma ParseOne_footprint_inside (b : slice Z) :
  (4 <= len b)%nat ->
  (fst (ParseOneSocketControlMessage b) <= len b)%nat.
Proof.
  intros Hlen.
  unfold ParseOneSocketControlMessage, socketControlMessageHeaderAndData, index.
  destruct ((0 <=? 0) && (0 <? Z.of_nat (len b))); cbn [fst]; try lia.
  destruct (nth_error (mem b) (Z.to_nat 0)); cbn [fst]; try lia.
  destruct (load (mem b) 0 4) as [raw|]; cbn [fst]; try lia.
  destruct ((uintptr (uint32 raw) <? cmsgSize) || (Z.of_nat (len b) <? uint32 raw)) eqn:Hchk;
    cbn [fst]; try lia.
  apply orb_false_iff in Hchk. destruct Hchk as [Hlo Hhi].
  apply Z.ltb_ge in Hlo, Hhi.
  pose proof (uint32_range raw) as Hr.
  rewrite uintptr_small in Hlo by lia. unfold cmsgSize in Hlo.
  destruct (reslice b (cmsgDataAlign cmsgSize) (uint32 raw)); cbn [fst]; try lia.
  destruct (derefCmsghdr (mem b)) as [hdr|]; cbn [fst]; try lia.
  destruct (int (cmsgDataAlign (uintptr (Len hdr))) <? Z.of_nat (len b)); cbn [fst]; try lia.
  destruct (sliceFrom b (int (cmsgDataAlign (uintptr (Len hdr))))); cbn [fst]; lia.
Qed.

(** C3. On every buffer of one to three bytes the parser dereferences four
    bytes from the buffer's first element: the header's length field is read
    through the header pointer before any comparison with the buffer
    length, so the read leaves the buffer. *)
Theorem ParseOne_short_buffer_overread (b : slice Z) :
  (0 < len b < 4)%nat ->
  (len b <= cap b)%nat ->
  fst (ParseOneSocketControlMessage b) = 4%nat
  /\ (len b < fst (ParseOneSocketControlMessage b))%nat
  /\ (snd (ParseOneSocketControlMessage b) = Err EINVAL
      \/ snd (ParseOneSocketControlMessage b) = Panic read_outside_allocation).
Proof.
  intros Hlen Hcap.
  unfold ParseOneSocketControlMessage, socketControlMessageHeaderAndData, index.
  replace ((0 <=? 0) && (0 <? Z.of_nat (len b))) with true
    by (symmetry; apply andb_true_iff; split; [reflexivity | apply Z.ltb_lt; lia]).
  destruct (nth_error (mem b) (Z.to_nat 0)) eqn:Hnth.
  2:{ apply nth_error_None in Hnth. unfold cap in Hcap. cbn in Hnth. lia. }
  destruct (load (mem b) 0 4) as [raw|]; cbn [fst snd].
  - pose proof (uint32_range raw) as Hr.
    rewrite uintptr_small by lia.
    replace ((uint32 raw <? cmsgSize) || (Z.of_nat (len b) <? uint32 raw)) with true.
    + cbn [fst snd]. repeat split; try lia. left; reflexivity.
    + symmetry. apply orb_true_iff. unfold cmsgSize.
      destruct (Z.ltb_spec (uint32 raw) 12); [left; reflexivity|right].
      apply Z.ltb_lt. lia.
  - repeat split; try lia. right; reflexivity.
Qed.

(** ** The control-message loop *)

(** [len dat] iterations are enough: more fuel changes nothing. *)
Lemma cmsgLoop_fuel {P : Protocol} (fuel fuel' : nat) (dat : slice Z)
  (p : receivedPacket) (g : globals) :
  (len dat <= fuel)%nat -> (len dat <= fuel')%nat ->
  cmsgLoopFuel fuel dat p g = cmsgLoopFuel fuel' dat p g.
Proof.
  revert fuel' dat p g.
  induction fuel as [|fuel IH]; intros fuel' dat p g H1 H2.
  - assert (H0 : len dat = 0%nat) by lia.
    destruct fuel'; cbn [cmsgLoopFuel]; rewrite H0; reflexivity.
  - destruct fuel' as [|fuel'].
    + assert (H0 : len dat = 0%nat) by lia.
      cbn [cmsgLoopFuel]; rewrite H0; reflexivity.
    + cbn [cmsgLoopFuel].
      destruct (len dat =? 0)%nat; [reflexivity|].
      destruct (snd (ParseOneSocketControlMessage dat)) as [[[hdr body] remainder]| |] eqn:HP;
        try reflexivity.
      apply ParseOne_ok in HP. destruct HP as (_ & _ & _ & _ & Hrem).
      destruct (handleCmsg hdr body p g) as [g' [p'| |]]; try reflexivity.
      apply IH; lia.
Qed.

(** The loop, one iteration unfolded. *)
Lemma cmsgLoop_eq {P : Protocol} (dat : slice Z) (p : receivedPacket) (g : globals) :
  cmsgLoop dat p g =
  if (len dat =? 0)%nat then (g, Ok p)
  else
    match snd (ParseOneSocketControlMessage dat) with
    | Ok (hdr, body, remainder) =>
        match handleCmsg hdr body p g with
        | (g, Ok p) => cmsgLoop remainder p g
        | other => other
        end
    | Err e => (g, Err e)
    | Panic q => (g, Panic q)
    end.
Proof.
  unfold cmsgLoop.
  destruct (len dat) as [|n] eqn:Hlen.
  { cbn [cmsgLoopFuel]. rewrite Hlen. reflexivity. }
  cbn [cmsgLoopFuel]. rewrite Hlen. cbn [Nat.eqb].
  destruct (snd (ParseOneSocketControlMessage dat)) as [[[hdr body] remainder]| |] eqn:HP;
    try reflexivity.
  apply ParseOne_ok in HP. destruct HP as (_ & _ & _ & _ & Hrem).
  destruct (handleCmsg hdr body p g) as [g' [p'| |]]; try reflexivity.
  apply cmsgLoop_fuel; lia.
Qed.

(** The loop is the loop body applied to the records of the chain. *)
Lemma cmsgLoop_chain {P : Protocol} (dat : slice Z) (rs : list (Cmsghdr * slice Z))
  (fin : outcome unit) :
  chainOf dat rs fin ->
  forall p g, cmsgLoop dat p g = finish fin (handleAll rs p g).
Proof.
  induction 1 as [dat H0|dat e H0 HP|dat q H0 HP|dat hdr body remainder rs fin H0 HP Hch IH];
    intros p g; rewrite cmsgLoop_eq.
  - rewrite H0. reflexivity.
  - apply Nat.eqb_neq in H0. rewrite H0, HP. reflexivity.
  - apply Nat.eqb_neq in H0. rewrite H0, HP. reflexivity.
  - apply Nat.eqb_neq in H0. rewrite H0, HP. cbn [handleAll].
    destruct (handleCmsg hdr body p g) as [g' [p'| |]]; try reflexivity.
    apply IH.
Qed.

(** Every buffer is a chain: the loop always comes to an end. *)
Lemma chainOf_total (dat : slice Z) : exists rs fin, chainOf dat rs fin.
Proof.
  remember (len dat) as n eqn:Hn.
  revert dat Hn. induction n as [n IH] using lt_wf_ind. intros dat Hn.
  destruct (Nat.eq_dec (len dat) 0) as [H0|H0].
  - exists [], (Ok tt). now constructor.
  - destruct (snd (ParseOneSocketControlMessage dat)) as [[[hdr body] remainder]|e|q] eqn:HP.
    + pose proof (ParseOne_ok _ _ _ _ HP) as (_ & _ & _ & _ & Hrem).
      destruct (IH (len remainder) ltac:(lia) remainder eq_refl) as (rs & fin & Hch).
      exists ((hdr, body) :: rs), fin. econstructor; eassumption.
    + exists [], (Err e). now constructor.
    + exists [], (Panic q). now constructor.
Qed.

(** The loop always returns what the loop body makes of the buffer's chain:
    it never runs out of iterations. *)
Lemma cmsgLoop_total {P : Protocol} (dat : slice Z) (p : receivedPacket) (g : globals) :
  exists rs fin,
    chainOf dat rs fin /\ cmsgLoop dat p g = finish fin (handleAll rs p g).
Proof.
  destruct (chainOf_total dat) as (rs & fin & Hch).
  exists rs, fin. split; [exact Hch | apply cmsgLoop_chain; exact Hch].
Qed.

(** The bodies of a chain's records lie within their arrays. *)
Lemma chainOf_bodies (dat : slice Z) (rs : list (Cmsghdr * slice Z)) (fin : outcome unit) :
  chainOf dat rs fin ->
  Forall (fun r => (len (snd r) <= cap (snd r))%nat) rs.
Proof.
  induction 1 as [| | |dat hdr body remainder rs fin H0 HP Hch IH]; try constructor.
  - apply ParseOne_ok in HP. cbn [snd]. tauto.
  - exact IH.
Qed.

(** A chain that ends in an error ends in [EINVAL]. *)
Lemma chainOf_err (dat : slice Z) (rs : list (Cmsghdr * slice Z)) (e : error) :
  chainOf dat rs (Err e) -> e = EINVAL.
Proof.
  remember (Err e) as fin eqn:Hfin.
  induction 1 as [| dat e' H0 HP | |dat hdr body remainder rs fin H0 HP Hch IH];
    try discriminate.
  - injection Hfin as <-. eapply ParseOne_err; eassumption.
  - apply IH. exact Hfin.
Qed.

(** ** The loop body *)

Lemma index_ok {A : Type} (b : slice A) (i : Z) :
  0 <= i < Z.of_nat (len b) -> (len b <= cap b)%nat ->
  exists x, index b i = Ok x /\ nth_error (mem b) (Z.to_nat i) = Some x.
Proof.
  intros Hi Hcap. unfold index.
  replace ((0 <=? i) && (i <? Z.of_nat (len b))) with true
    by (symmetry; apply andb_true_iff; split; [apply Z.leb_le | apply Z.ltb_lt]; lia).
  destruct (nth_error (mem b) (Z.to_nat i)) as [x|] eqn:Hnth.
  - exists x. split; reflexivity.
  - apply nth_error_None in Hnth. unfold cap in Hcap. lia.
Qed.

Ltac case_hdr hdr :=
  destruct hdr as [hl lv ty]; cbn [Level Type_ fst snd] in *;
  unfold wellSizedPktInfo, badPktInfo, recognised in *;
  unfold isECNRecord, isPktInfoV4, isPktInfoV6,
    windows.IPPROTO_IP, windows.IPPROTO_IPV6, windows.IP_TOS, windows.IP_PKTINFO,
    windows.IPV6_PKTINFO, IPV6_RECVTCLASS in *;
  cbn [Level Type_ fst snd] in *;
  (destruct (Z.eqb_spec lv 0); [subst lv|]);
  try (destruct (Z.eqb_spec lv 41); [subst lv|]);
  (destruct (Z.eqb_spec ty 3); [subst ty|]);
  try (destruct (Z.eqb_spec ty 19); [subst ty|]);
  try (destruct (Z.eqb_spec ty 40); [subst ty|]);
  cbn [Z.eqb Pos.eqb andb orb negb] in *.

(** A record with an unrecognised (level, type) pair changes nothing. *)
Lemma handleCmsg_unrecognised {P : Protocol} (hdr : Cmsghdr) (body : slice Z)
  (p : receivedPacket) (g : globals) :
  recognised hdr = false -> handleCmsg hdr body p g = (g, Ok p).
Proof.
  intros Hrec. unfold handleCmsg. case_hdr hdr; try discriminate; reflexivity.
Qed.

(** The loop body touches the process-wide state through the once-gates only. *)
Lemma handleCmsg_globals {P : Protocol} (hdr : Cmsghdr) (body : slice Z)
  (p : receivedPacket) (g : globals) :
  fst (handleCmsg hdr body p g) = g
  \/ fst (handleCmsg hdr body p g) = invalidCmsgOnceV4_Do body g
  \/ fst (handleCmsg hdr body p g) = invalidCmsgOnceV6_Do body g.
Proof.
  unfold handleCmsg, parseIPv4PktInfo. case_hdr hdr;
    repeat match goal with
           | |- context [index ?b ?i] => destruct (index b i)
           | |- context [(len ?b =? ?n)%nat] => destruct (len b =? n)%nat
           end; cbn [fst negb]; auto.
Qed.

(** A packet-info record of unexpected size leaves the packet as it is. *)
Lemma handleCmsg_badPktInfo {P : Protocol} (hdr : Cmsghdr) (body : slice Z)
  (p : receivedPacket) (g : globals) :
  badPktInfo (hdr, body) = true ->
  exists g', handleCmsg hdr body p g = (g', Ok p).
Proof.
  intros Hbad. unfold handleCmsg, parseIPv4PktInfo. case_hdr hdr; try discriminate;
    repeat match goal with
           | H : context [(len ?b =? ?n)%nat] |- _ => destruct (len b =? n)%nat
           end; try discriminate; cbn [negb]; eexists; reflexivity.
Qed.

(** Only a well-sized packet-info record writes the packet's info. *)
Lemma handleCmsg_info {P : Protocol} (hdr : Cmsghdr) (body : slice Z)
  (p p' : receivedPacket) (g g' : globals) :
  wellSizedPktInfo (hdr, body) = false ->
  handleCmsg hdr body p g = (g', Ok p') ->
  info p' = info p.
Proof.
  intros Hws. unfold handleCmsg, parseIPv4PktInfo. case_hdr hdr;
    repeat match goal with
           | |- context [index ?b ?i] => destruct (index b i)
           | H : context [(len ?b =? ?n)%nat] |- _ => destruct (len b =? n)%nat
           end; try discriminate; cbn [negb];
    intros H; inversion H; subst; reflexivity.
Qed.

(** The loop body panics only on an ECN record without payload. *)
Lemma handleCmsg_returns {P : Protocol} (hdr : Cmsghdr) (body : slice Z)
  (p : receivedPacket) (g : globals) :
  (isECNRecord hdr = true -> len body <> 0%nat) ->
  (len body <= cap body)%nat ->
  exists g' p', handleCmsg hdr body p g = (g', Ok p').
Proof.
  intros Hecn Hcap.
  assert (Hidx : isECNRecord hdr = true -> exists x, index body 0 = Ok x).
  { intros H. destruct (index_ok body 0) as (x & Hx & _); [specialize (Hecn H); lia|exact Hcap|].
    exists x. exact Hx. }
  clear Hecn.
  unfold handleCmsg, parseIPv4PktInfo. case_hdr hdr;
    try (destruct (Hidx eq_refl) as [x ->]);
    repeat match goal with
           | |- context [(len ?b =? ?n)%nat] => destruct (len b =? n)%nat
           end; cbn [negb]; eexists _, _; reflexivity.
Qed.

(** ** Effects on the process-wide state *)

Lemma receives_V4_Do (body : slice Z) (g : globals) :
  receives (invalidCmsgOnceV4_Do body g) = receives g.
Proof. unfold invalidCmsgOnceV4_Do, receives. destruct (invalidCmsgOnceV4 g); reflexivity. Qed.

Lemma receives_V6_Do (body : slice Z) (g : globals) :
  receives (invalidCmsgOnceV6_Do body g) = receives g.
Proof. unfold invalidCmsgOnceV6_Do, receives. destruct (invalidCmsgOnceV6 g); reflexivity. Qed.

Lemma onceInv_V4_Do (body : slice Z) (g : globals) :
  onceInv g -> onceInv (invalidCmsgOnceV4_Do body g).
Proof.
  unfold onceInv, invalidCmsgOnceV4_Do, logged. intros [H4 H6].
  destruct (invalidCmsgOnceV4 g) eqn:E4, (invalidCmsgOnceV6 g) eqn:E6;
    cbn in *; rewrite ?E4, ?E6; split; lia.
Qed.

Lemma onceInv_V6_Do (body : slice Z) (g : globals) :
  onceInv g -> onceInv (invalidCmsgOnceV6_Do body g).
Proof.
  unfold onceInv, invalidCmsgOnceV6_Do, logged. intros [H4 H6].
  destruct (invalidCmsgOnceV4 g) eqn:E4, (invalidCmsgOnceV6 g) eqn:E6;
    cbn in *; rewrite ?E4, ?E6; split; lia.
Qed.

Lemma onceInv_initGlobals : onceInv initGlobals.
Proof. unfold onceInv, logged. cbn. lia. Qed.

Lemma onceInv_at_most_once (g : globals) :
  onceInv g -> (logged V4 g <= 1)%nat /\ (logged V6 g <= 1)%nat.
Proof.
  unfold onceInv. intros [H4 H6].
  destruct (invalidCmsgOnceV4 g), (invalidCmsgOnceV6 g); lia.
Qed.

Lemma handleCmsg_receives {P : Protocol} (hdr : Cmsghdr) (body : slice Z)
  (p : receivedPacket) (g : globals) :
  receives (fst (handleCmsg hdr body p g)) = receives g.
Proof.
  destruct (handleCmsg_globals hdr body p g) as [-> | [-> | ->]];
    auto using receives_V4_Do, receives_V6_Do.
Qed.

Lemma handleCmsg_onceInv {P : Protocol} (hdr : Cmsghdr) (body : slice Z)
  (p : receivedPacket) (g : globals) :
  onceInv g -> onceInv (fst (handleCmsg hdr body p g)).
Proof.
  intros Hg.
  destruct (handleCmsg_globals hdr body p g) as [-> | [-> | ->]];
    auto using onceInv_V4_Do, onceInv_V6_Do.
Qed.

Lemma cmsgLoopFuel_receives {P : Protocol} (fuel : nat) (dat : slice Z)
  (p : receivedPacket) (g : globals) :
  receives (fst (cmsgLoopFuel fuel dat p g)) = receives g.
Proof.
  revert dat p g. induction fuel as [|fuel IH]; intros dat p g; cbn [cmsgLoopFuel];
    destruct (len dat =? 0)%nat; try reflexivity.
  destruct (snd (ParseOneSocketControlMessage dat)) as [[[hdr body] remainder]| |];
    try reflexivity.
  pose proof (handleCmsg_receives hdr body p g) as Hh.
  destruct (handleCmsg hdr body p g) as [g' [p'| |]]; cbn [fst] in *; try exact Hh.
  rewrite IH. exact Hh.
Qed.

Lemma cmsgLoopFuel_onceInv {P : Protocol} (fuel : nat) (dat : slice Z)
  (p : receivedPacket) (g : globals) :
  onceInv g -> onceInv (fst (cmsgLoopFuel fuel dat p g)).
Proof.
  revert dat p g. induction fuel as [|fuel IH]; intros dat p g Hg; cbn [cmsgLoopFuel];
    destruct (len dat =? 0)%nat; try exact Hg.
  destruct (snd (ParseOneSocketControlMessage dat)) as [[[hdr body] remainder]| |];
    try exact Hg.
  pose proof (handleCmsg_onceInv hdr body p g Hg) as Hh.
  destruct (handleCmsg hdr body p g) as [g' [p'| |]]; cbn [fst] in *; try exact Hh.
  apply IH. exact Hh.
Qed.

(** ** The loop body over a whole chain *)

(** Without an ECN record that lacks its payload the loop body never
    panics, and without a well-sized packet-info record the packet's info
    stays as it was. *)
Lemma handleAll_returns {P : Protocol} (rs : list (Cmsghdr * slice Z)) :
  Forall (fun r => (len (snd r) <= cap (snd r))%nat) rs ->
  Forall (fun r => isECNRecord (fst r) = true -> len (snd r) <> 0%nat) rs ->
  forall p g, exists g' p', handleAll rs p g = (g', Ok p').
Proof.
  induction rs as [|[hdr body] rs IH]; intros Hcap Hecn p g; cbn [handleAll].
  - eexists _, _. reflexivity.
  - inversion Hcap as [|? ? Hc Hcap']; subst. inversion Hecn as [|? ? He Hecn']; subst.
    cbn [fst snd] in *.
    destruct (handleCmsg_returns hdr body p g He Hc) as (g' & p' & ->).
    apply IH; assumption.
Qed.

Lemma handleAll_info {P : Protocol} (rs : list (Cmsghdr * slice Z)) :
  Forall (fun r => wellSizedPktInfo r = false) rs ->
  forall p g g' p', handleAll rs p g = (g', Ok p') -> info p' = info p.
Proof.
  induction rs as [|[hdr body] rs IH]; intros Hws p g g' p'; cbn [handleAll].
  - intros H. injection H as <- <-. reflexivity.
  - inversion Hws as [|? ? Hw Hws']; subst.
    destruct (handleCmsg hdr body p g) as [g1 [p1| |]] eqn:Hh; try discriminate.
    intros H. rewrite (IH Hws' _ _ _ _ H).
    eapply handleCmsg_info; eassumption.
Qed.

(** An unrecognised record can be dropped from the chain. *)
Lemma handleAll_skip {P : Protocol} (rs1 rs2 : list (Cmsghdr * slice Z))
  (hdr : Cmsghdr) (body : slice Z) :
  recognised hdr = false ->
  forall p g, handleAll (rs1 ++ (hdr, body) :: rs2) p g = handleAll (rs1 ++ rs2) p g.
Proof.
  intros Hrec. induction rs1 as [|[h b] rs1 IH]; intros p g; cbn [handleAll app].
  - rewrite handleCmsg_unrecognised by exact Hrec. reflexivity.
  - destruct (handleCmsg h b p g) as [g1 [p1| |]]; try reflexivity. apply IH.
Qed.

(** ** The log outside the control-message loop *)

Lemma logSame_refl (g : globals) : logSame g g.
Proof. unfold logSame. tauto. Qed.

Lemma logSame_trans (g1 g2 g3 : globals) :
  logSame g1 g2 -> logSame g2 g3 -> logSame g1 g3.
Proof. unfold logSame. intros (A & B & C & D) (A' & B' & C' & D'). repeat split; congruence. Qed.

Lemma logSame_onceInv (g g' : globals) : logSame g g' -> onceInv g -> onceInv g'.
Proof. unfold logSame, onceInv. intros (-> & -> & -> & ->). tauto. Qed.

Lemma logSame_getPacketBuffer {P : Protocol} (g : globals) : logSame g (snd (getPacketBuffer g)).
Proof. unfold logSame, getPacketBuffer, logged. cbn. tauto. Qed.

Lemma logSame_emit_ReadBatchCall (g : globals) : logSame g (emit ReadBatchCall g).
Proof. unfold logSame, emit, logged. cbn. tauto. Qed.

Lemma refillSlot_globals {P : Protocol} (i : Z) (c : oobConn) (g : globals) :
  snd (fst (refillSlot i c g)) = snd (getPacketBuffer g).
Proof.
  unfold refillSlot. destruct (getPacketBuffer g) as [buf g1]. cbn [snd].
  destruct (sliceTo (Data buf) (Z.of_nat MaxPacketBufferSize)); try reflexivity.
  destruct (i <? Z.of_nat (length (buffers c))); try reflexivity.
  match goal with |- context [index ?b ?j] => destruct (index b j) as [m| |] end;
    try reflexivity.
  destruct (Buffers m); reflexivity.
Qed.

Lemma refillLoop_logSame {P : Protocol} (todo : nat) (i : Z) (c : oobConn) (g : globals) :
  logSame g (snd (fst (refillLoop todo i c g))).
Proof.
  revert i c g. induction todo as [|todo IH]; intros i c g; cbn [refillLoop].
  - apply logSame_refl.
  - pose proof (refillSlot_globals i c g) as Hg.
    destruct (refillSlot i c g) as [[c1 g1] [u| |]]; cbn [fst snd] in *; subst g1;
      try apply logSame_getPacketBuffer.
    eapply logSame_trans; [apply logSame_getPacketBuffer | apply IH].
Qed.

Lemma readNextBatch_logSame {P : Protocol} (e : recvEnv) (c : oobConn) (g : globals) :
  logSame g (snd (fst (readNextBatch e c g))).
Proof.
  unfold readNextBatch.
  destruct (sliceTo (messages c) batchSize) as [ms| |]; try apply logSame_refl.
  match goal with |- context [refillLoop ?t ?i ?c' g] =>
    pose proof (refillLoop_logSame t i c' g) as Hl;
    destruct (refillLoop t i c' g) as [[c1 g1] [u| |]] end;
    cbn [fst snd] in *; try exact Hl.
  assert (Hl' : logSame g (emit ReadBatchCall g1))
    by (eapply logSame_trans; [exact Hl | apply logSame_emit_ReadBatchCall]).
  destruct ((rbN e =? 0) || negb (isNil (rbErr e))).
  - destruct (rbErr e); exact Hl'.
  - match goal with |- context [sliceTo ?b ?n] => destruct (sliceTo b n) end; exact Hl'.
Qed.

Lemma nextSlot_logSame {P : Protocol} (e : recvEnv) (c : oobConn) (g : globals) :
  logSame g (snd (fst (nextSlot e c g))).
Proof.
  unfold nextSlot.
  destruct (Z.of_nat (len (messages c)) =? readPos c).
  - pose proof (readNextBatch_logSame e c g) as Hl.
    destruct (readNextBatch e c g) as [[c1 g1] [[p|]| |]]; cbn [fst snd] in *; try exact Hl.
    destruct (takeSlot e c1) as [c2 [slot| |]]; exact Hl.
  - destruct (takeSlot e c) as [c2 [slot| |]]; apply logSame_refl.
Qed.

(** [ReadPacket] keeps the once-gates' account of the log, on any connection. *)
Lemma ReadPacket_onceInv {P : Protocol} (e : recvEnv) (c : oobConn) (g : globals) :
  onceInv g -> onceInv (snd (fst (ReadPacket e c g))).
Proof.
  intros Hg. unfold ReadPacket.
  pose proof (logSame_onceInv _ _ (nextSlot_logSame e c g) Hg) as Hl.
  destruct (nextSlot e c g) as [[c1 g1] [[p|[dat p]]| |]]; cbn [fst snd] in *; try exact Hl.
  unfold cmsgLoop.
  pose proof (cmsgLoopFuel_onceInv (len dat) dat p g1 Hl) as Hc.
  destruct (cmsgLoopFuel (len dat) dat p g1) as [g2 r]. exact Hc.
Qed.

Lemma readPackets_onceInv {P : Protocol} (es : list recvEnv) :
  forall c g, onceInv g ->
  Forall (fun r => onceInv (exitGlobals r)) (readPackets es c g).
Proof.
  induction es as [|e es IH]; intros c g Hg; cbn [readPackets].
  - constructor.
  - pose proof (ReadPacket_onceInv e c g Hg) as H1.
    destruct (ReadPacket e c g) as [[c1 g1] r]. cbn [fst snd] in H1.
    constructor; [exact H1 | apply IH; exact H1].
Qed.

(** ** The shape of the connection *)

Lemma length_assign {A : Type} (l : list A) (i : nat) (x : A) :
  length (assign l i x) = length l.
Proof.
  revert i. induction l as [|h t IH]; intros [|i]; cbn [assign length]; try reflexivity.
  rewrite IH. reflexivity.
Qed.

Lemma Forall_assign {A : Type} (P : A -> Prop) (l : list A) (i : nat) (x : A) :
  Forall P l -> P x -> Forall P (assign l i x).
Proof.
  intros Hl Hx. revert i. induction Hl as [|h t Hh Ht IH]; intros [|i]; cbn [assign];
    constructor; auto.
Qed.

Lemma length_writeDatagrams (ds : list datagram) (ms : list Message) :
  length (writeDatagrams ds ms) = length ms.
Proof.
  revert ms. induction ds as [|d ds IH]; intros [|m ms]; cbn [writeDatagrams length];
    try reflexivity.
  rewrite IH. reflexivity.
Qed.

Lemma Forall_writeDatagrams (ds : list datagram) (ms : list Message) :
  Forall (fun m => Buffers m <> []) ms ->
  Forall (fun m => Buffers m <> []) (writeDatagrams ds ms).
Proof.
  intros Hms. revert ds. induction Hms as [|m ms Hm Hms IH]; intros [|d ds];
    cbn [writeDatagrams]; try constructor; auto.
  unfold writeDatagram. cbn [Buffers]. destruct (Buffers m); [contradiction|discriminate].
Qed.

Lemma ReadBatch_effect_shape (e : recvEnv) (ms : slice Message) :
  (len ms <= cap ms)%nat ->
  Forall (fun m => Buffers m <> []) (mem ms) ->
  cap (ReadBatch_effect e ms) = cap ms
  /\ len (ReadBatch_effect e ms) = len ms
  /\ Forall (fun m => Buffers m <> []) (mem (ReadBatch_effect e ms)).
Proof.
  intros Hlen Hall. unfold ReadBatch_effect, cap in *. cbn [mem len].
  repeat split.
  - rewrite length_app, length_writeDatagrams, <- length_app, firstn_skipn. reflexivity.
  - rewrite <- (firstn_skipn (len ms) (mem ms)) in Hall.
    apply Forall_app in Hall. destruct Hall as [Hf Hs].
    apply Forall_app. split; [apply Forall_writeDatagrams; exact Hf | exact Hs].
Qed.

Lemma sliceTo_fresh (n : nat) :
  sliceTo (mkSlice (repeat 0 n) 0) (Z.of_nat n) = Ok (mkSlice (repeat 0 n) n).
Proof.
  unfold sliceTo, reslice, cap. cbn [mem]. rewrite repeat_length.
  replace ((0 <=? 0) && (0 <=? Z.of_nat n) && (Z.of_nat n <=? Z.of_nat n)) with true.
  - cbn [Z.to_nat skipn]. rewrite Z.sub_0_r, Nat2Z.id. reflexivity.
  - symmetry. rewrite !andb_true_iff. repeat split; apply Z.leb_le; lia.
Qed.

Lemma uint8_small (x : Z) : 0 <= x < 256 -> uint8 x = x.
Proof. intros H. unfold uint8. apply Z.mod_small. change (2 ^ 8) with 256. lia. Qed.

(** One iteration of the refill loop on a well-shaped connection. *)
Lemma refillSlot_ok {P : Protocol} (i : Z) (c : oobConn) (g : globals) :
  shapeInv c ->
  0 <= i < batchSize ->
  len (messages c) = Z.to_nat batchSize ->
  exists c',
    refillSlot i c g = (c', snd (getPacketBuffer g), Ok tt)
    /\ shapeInv c'
    /\ readPos c' = readPos c
    /\ len (messages c') = len (messages c).
Proof.
  intros (Hcap & Hlen & Hbufs & Hall) Hi Hfull.
  unfold refillSlot, getPacketBuffer. cbn [Data bufId snd].
  rewrite sliceTo_fresh.
  replace (i <? Z.of_nat (length (buffers c))) with true
    by (symmetry; apply Z.ltb_lt; rewrite Hbufs; unfold batchSize in *; lia).
  cbn [set_conn messages buffers readPos].
  destruct (index_ok (messages c) i) as (m & -> & Hnth);
    [unfold batchSize in *; lia | exact Hlen |].
  assert (Hm : Buffers m <> []).
  { rewrite Forall_forall in Hall. apply Hall. eapply nth_error_In. exact Hnth. }
  destruct (Buffers m) as [|b0 rest]; [contradiction|].
  eexists. split; [reflexivity|].
  unfold shapeInv, cap, set_conn. cbn [messages buffers readPos mem len].
  rewrite !length_assign. repeat split; try assumption.
  apply Forall_assign; [exact Hall | cbn [Buffers]; discriminate].
Qed.

Lemma refillLoop_ok {P : Protocol} (todo : nat) :
  forall (i : Z) (c : oobConn) (g : globals),
  shapeInv c ->
  0 <= i -> i + Z.of_nat todo <= batchSize ->
  len (messages c) = Z.to_nat batchSize ->
  exists c' g',
    refillLoop todo i c g = (c', g', Ok tt)
    /\ shapeInv c'
    /\ readPos c' = readPos c
    /\ len (messages c') = len (messages c)
    /\ receives g' = receives g.
Proof.
  induction todo as [|todo IH]; intros i c g Hshape Hi Hbound Hfull; cbn [refillLoop].
  - exists c, g. split; [reflexivity|]. split; [exact Hshape|]. repeat split; reflexivity.
  - destruct (refillSlot_ok i c g Hshape) as (c1 & -> & Hshape1 & Hrp1 & Hlen1);
      [lia | exact Hfull |].
    destruct (IH (uint8 (i + 1)) c1 (snd (getPacketBuffer g)) Hshape1)
      as (c2 & g2 & -> & Hshape2 & Hrp2 & Hlen2 & Hrec2).
    + rewrite uint8_small by (unfold batchSize in *; lia). lia.
    + rewrite uint8_small by (unfold batchSize in *; lia). lia.
    + congruence.
    + exists c2, g2. split; [reflexivity|]. split; [exact Hshape2|].
      repeat split; try congruence.
      rewrite Hrec2. unfold receives, getPacketBuffer. reflexivity.
Qed.

Lemma sliceTo_batchSize (ms : slice Message) :
  cap ms = Z.to_nat batchSize ->
  sliceTo ms batchSize = Ok (mkSlice (mem ms) (Z.to_nat batchSize)).
Proof.
  intros Hcap. unfold sliceTo, reslice. rewrite Hcap. reflexivity.
Qed.

(** The refill on a well-shaped connection: the receive call is always
    reached, the cursor is reset, and the batch keeps its full length unless
    the call succeeds. *)
Lemma readNextBatch_spec {P : Protocol} (e : recvEnv) (c : oobConn) (g : globals) :
  shapeInv c ->
  0 <= readPos c <= batchSize ->
  exists c' g' r,
    readNextBatch e c g = (c', g', r)
    /\ shapeInv c'
    /\ readPos c' = 0
    /\ receives g' = S (receives g)
    /\ match r with
       | Ok None => (0 < len (messages c'))%nat
       | _ => len (messages c') = Z.to_nat batchSize
       end
    /\ ((rbN e =? 0) || negb (isNil (rbErr e)) = true ->
        r = match rbErr e with
            | Some err => Err err
            | None => Ok (Some zeroPacket)
            end).
Proof.
  intros Hshape Hrp. pose proof Hshape as (Hcap & Hlen & Hbufs & Hall).
  unfold readNextBatch. rewrite sliceTo_batchSize by exact Hcap.
  set (c0 := set_conn c (readPos c) (mkSlice (mem (messages c)) (Z.to_nat batchSize))
                      (buffers c)).
  assert (Hshape0 : shapeInv c0).
  { unfold shapeInv, c0, set_conn, cap in *. cbn [messages buffers mem len].
    repeat split; try assumption. lia. }
  destruct (refillLoop_ok (Z.to_nat (readPos c0)) 0 c0 g Hshape0)
    as (c1 & g1 & -> & Hshape1 & Hrp1 & Hlen1 & Hrec1);
    [lia | unfold c0, set_conn; cbn [readPos]; lia | reflexivity |].
  pose proof Hshape1 as (Hcap1 & Hle1 & Hbufs1 & Hall1).
  destruct (ReadBatch_effect_shape e (messages c1) Hle1 Hall1) as (Hcap2 & Hlen2 & Hall2).
  set (ms2 := ReadBatch_effect e (messages c1)) in *.
  assert (Hfull2 : len ms2 = Z.to_nat batchSize).
  { rewrite Hlen2, Hlen1. reflexivity. }
  assert (Hrec : receives (emit ReadBatchCall g1) = S (receives g)).
  { unfold receives, emit in *. cbn [trace filter isReadBatchCall length]. congruence. }
  assert (Hshape2 : forall rp, shapeInv (set_conn (set_conn c1 0 (messages c1) (buffers c1))
                                                  rp ms2 (buffers c1))).
  { intros rp. unfold shapeInv, set_conn. cbn [messages buffers].
    repeat split; try assumption; try congruence; try lia. }
  cbn [set_conn readPos messages buffers cap_].
  destruct ((rbN e =? 0) || negb (isNil (rbErr e))) eqn:Hfail.
  - destruct (rbErr e) as [err|];
      eexists _, _, _; (split; [reflexivity|]); (split; [apply (Hshape2 0)|]);
      cbn [readPos messages]; repeat split; auto.
  - apply orb_false_iff in Hfail. destruct Hfail as [Hn0 _]. apply Z.eqb_neq in Hn0.
    unfold sliceTo, reslice. fold ms2.
    destruct ((0 <=? 0) && (0 <=? rbN e) && (rbN e <=? Z.of_nat (cap ms2))) eqn:Hsl.
    + apply andb_true_iff in Hsl. destruct Hsl as [Hsl Hhi].
      apply andb_true_iff in Hsl. destruct Hsl as [_ Hlo].
      apply Z.leb_le in Hlo, Hhi.
      eexists _, _, _. split; [reflexivity|].
      unfold shapeInv, set_conn, cap in *. cbn [messages buffers readPos mem len].
      change (Z.to_nat 0) with 0%nat. cbn [skipn].
      repeat split; try assumption; try congruence; try lia.
    + eexists _, _, _. split; [reflexivity|]. split; [apply (Hshape2 0)|].
      cbn [readPos messages]. repeat split; auto. discriminate.
Qed.

(** Taking the slot at the cursor: whatever the slot holds, the cursor has
    advanced by one when the call leaves. *)
Lemma takeSlot_spec (e : recvEnv) (c : oobConn) :
  shapeInv c ->
  0 <= readPos c < Z.of_nat (len (messages c)) ->
  exists r msg,
    takeSlot e c = (set_conn c (readPos c + 1) (messages c) (buffers c), r)
    /\ index (messages c) (readPos c) = Ok msg
    /\ (forall dat p, r = Ok (dat, p) -> sliceTo (OOB msg) (NN msg) = Ok dat).
Proof.
  intros (Hcap & Hlen & Hbufs & Hall) Hrp.
  unfold takeSlot.
  destruct (index_ok (messages c) (readPos c) Hrp Hlen) as (msg & -> & _).
  destruct (nth_error (buffers c) (Z.to_nat (readPos c))) as [buf|] eqn:Hbuf.
  2:{ apply nth_error_None in Hbuf. unfold cap in *. lia. }
  rewrite uint8_small by (unfold cap, batchSize in *; lia).
  destruct (sliceTo (OOB msg) (NN msg)) as [dat| |] eqn:Hs.
  - destruct (Buffers msg) as [|b0 rest].
    + eexists _, msg. split; [reflexivity|]. split; [reflexivity|]. discriminate.
    + destruct (sliceTo b0 (N_ msg)); eexists _, msg;
        (split; [reflexivity|]); (split; [reflexivity|]); try discriminate.
      intros dat' p' H. injection H as <- _. exact Hs.
  - eexists _, msg. split; [reflexivity|]. split; [reflexivity|]. discriminate.
  - eexists _, msg. split; [reflexivity|]. split; [reflexivity|]. discriminate.
Qed.

Lemma shapeInv_set_readPos (c : oobConn) (rp : Z) :
  shapeInv c -> shapeInv (set_conn c rp (messages c) (buffers c)).
Proof. unfold shapeInv, set_conn. cbn [messages buffers]. tauto. Qed.

(** Lines 116-144 on a well-formed connection. *)
Lemma nextSlot_step {P : Protocol} (e : recvEnv) (c : oobConn) (g : globals) :
  wfConn c ->
  exists c' g' r,
    nextSlot e c g = (c', g', r)
    /\ wfConn c'
    /\ (if Z.of_nat (len (messages c)) =? readPos c
        then receives g' = S (receives g)
             /\ match r with
                | Ok (inl _) => readPos c' = 0 /\ len (messages c') = Z.to_nat batchSize
                | _ => True
                end
        else receives g' = receives g
             /\ g' = g
             /\ c' = set_conn c (readPos c + 1) (messages c) (buffers c))
    /\ (forall slot, r = Ok (inr slot) ->
        readPos c' = if Z.of_nat (len (messages c)) =? readPos c
                     then 1 else readPos c + 1).
Proof.
  intros [Hcur Hshape]. unfold cursorInv in Hcur.
  pose proof Hshape as (Hcap & Hlen & Hbufs & Hall).
  assert (Hbs : 0 <= batchSize) by (unfold batchSize; lia).
  unfold nextSlot.
  destruct (Z.of_nat (len (messages c)) =? readPos c) eqn:Hex.
  - apply Z.eqb_eq in Hex.
    destruct (readNextBatch_spec e c g Hshape)
      as (c1 & g1 & r1 & -> & Hshape1 & Hrp1 & Hrec1 & Hr1 & _);
      [unfold cap in *; lia|].
    pose proof Hshape1 as (Hcap1 & Hlen1 & _ & _).
    destruct r1 as [[p|]| |].
    + exists c1, g1, (Ok (inl p)). split; [reflexivity|].
      split; [split; [unfold cursorInv; lia | exact Hshape1]|].
      split; [split; [exact Hrec1 | split; [exact Hrp1 | exact Hr1]]|]. discriminate.
    + destruct (takeSlot_spec e c1 Hshape1) as (r & msg & Ht & _); [lia|].
      rewrite Ht. rewrite Hrp1.
      assert (Hwf : wfConn (set_conn c1 (0 + 1) (messages c1) (buffers c1))).
      { split; [unfold cursorInv, set_conn; cbn [readPos messages]; lia
               | apply shapeInv_set_readPos; exact Hshape1]. }
      destruct r as [slot| |]; eexists _, _, _; (split; [reflexivity|]);
        (split; [exact Hwf|]); cbn [readPos set_conn].
      * split; [split; [exact Hrec1 | exact I]|]. intros; lia.
      * split; [split; [exact Hrec1 | exact I]|]. discriminate.
      * split; [split; [exact Hrec1 | exact I]|]. discriminate.
    + exists c1, g1, (Err e0). split; [reflexivity|].
      split; [split; [unfold cursorInv; lia | exact Hshape1]|].
      split; [split; [exact Hrec1 | exact I]|]. discriminate.
    + exists c1, g1, (Panic p). split; [reflexivity|].
      split; [split; [unfold cursorInv; lia | exact Hshape1]|].
      split; [split; [exact Hrec1 | exact I]|]. discriminate.
  - apply Z.eqb_neq in Hex.
    destruct (takeSlot_spec e c Hshape) as (r & msg & Ht & _); [lia|].
    rewrite Ht.
    assert (Hwf : wfConn (set_conn c (readPos c + 1) (messages c) (buffers c))).
    { split; [unfold cursorInv, set_conn; cbn [readPos messages]; lia
             | apply shapeInv_set_readPos; exact Hshape]. }
    destruct r as [slot| |]; eexists _, _, _; (split; [reflexivity|]);
      (split; [exact Hwf|]); (split; [repeat split|]); try discriminate.
    intros _ _. cbn [readPos set_conn]. lia.
Qed.

(** ** One call, and sequences of calls *)

Lemma ReadPacket_conn {P : Protocol} (e : recvEnv) (c : oobConn) (g : globals) :
  fst (fst (ReadPacket e c g)) = fst (fst (nextSlot e c g))
  /\ receives (snd (fst (ReadPacket e c g))) = receives (snd (fst (nextSlot e c g))).
Proof.
  unfold ReadPacket.
  destruct (nextSlot e c g) as [[c1 g1] [[p|[dat p]]| |]]; cbn [fst snd]; auto.
  unfold cmsgLoop.
  pose proof (cmsgLoopFuel_receives (len dat) dat p g1) as Hc.
  destruct (cmsgLoopFuel (len dat) dat p g1) as [g2 r]. cbn [fst snd] in *. auto.
Qed.

(** A call on a well-formed connection leaves a well-formed connection, and
    it issues exactly one receive call when the batch is exhausted at entry
    and none otherwise. *)
Lemma ReadPacket_step {P : Protocol} (e : recvEnv) (c : oobConn) (g : globals) :
  wfConn c ->
  wfConn (fst (fst (ReadPacket e c g)))
  /\ receives (snd (fst (ReadPacket e c g)))
     = if Z.of_nat (len (messages c)) =? readPos c
       then S (receives g) else receives g.
Proof.
  intros Hwf.
  destruct (ReadPacket_conn e c g) as [-> ->].
  destruct (nextSlot_step e c g Hwf) as (c1 & g1 & r & -> & Hwf1 & Hcase & _).
  cbn [fst snd]. split; [exact Hwf1|].
  destruct (Z.of_nat (len (messages c)) =? readPos c); tauto.
Qed.

(** A connection that [newConn] returns is the initial connection. *)
Lemma newConn_ok (e : connEnv) (supportsDF : bool) (c : oobConn) :
  newConn e supportsDF = Ok c -> c = initConn supportsDF (isGSOEnabled e).
Proof.
  unfold newConn.
  destruct (syscallConnErr e); [discriminate|].
  destruct (localAddr e) as [|[a|]|net]; try discriminate;
    (destruct (controlErr e); [discriminate|]);
    repeat match goal with
           | |- context [if ?b then _ else _] => destruct b
           end; try discriminate; intros H; injection H as <-; reflexivity.
Qed.

Lemma wfConn_initConn (supportsDF gso : bool) : wfConn (initConn supportsDF gso).
Proof.
  unfold wfConn, cursorInv, shapeInv, initConn, cap, sliceOf, batchSize.
  cbn [readPos messages buffers mem len]. rewrite !repeat_length.
  change (uint8 1) with 1. change (Z.to_nat 1) with 1%nat.
  repeat split; try lia.
  apply Forall_forall. intros m Hm. apply repeat_spec in Hm. subst m.
  cbn [Buffers]. discriminate.
Qed.

Lemma readPackets_step {P : Protocol} (es : list recvEnv) :
  forall c g, wfConn c ->
  Forall (fun r =>
            wfConn (entryConn r) /\ wfConn (exitConn r)
            /\ receives (exitGlobals r)
               = if Z.of_nat (len (messages (entryConn r))) =? readPos (entryConn r)
                 then S (receives (entryGlobals r)) else receives (entryGlobals r))
         (readPackets es c g).
Proof.
  induction es as [|e es IH]; intros c g Hwf; cbn [readPackets].
  - constructor.
  - pose proof (ReadPacket_step e c g Hwf) as [Hwf1 Hrec].
    destruct (ReadPacket e c g) as [[c1 g1] r]. cbn [fst snd] in *.
    constructor.
    + cbn [entryConn exitConn entryGlobals exitGlobals]. auto.
    + apply IH. exact Hwf1.
Qed.

(** C6. In every sequence of [ReadPacket] calls on a freshly constructed
    connection, [0 <= readPos <= len(messages)] holds at the entry and at
    the exit of each call, and a call issues a new batched receive (exactly
    one) if and only if [readPos = len(messages)] at its entry. *)
Theorem batch_cursor_invariant {P : Protocol} (supportsDF gso : bool) (g : globals)
  (es : list recvEnv) :
  Forall (fun r =>
            cursorInv (entryConn r)
            /\ cursorInv (exitConn r)
            /\ (receives (exitGlobals r) = S (receives (entryGlobals r))
                <-> readPos (entryConn r) = Z.of_nat (len (messages (entryConn r))))
            /\ (receives (exitGlobals r) = receives (entryGlobals r)
                <-> readPos (entryConn r) <> Z.of_nat (len (messages (entryConn r)))))
         (readPackets es (initConn supportsDF gso) g).
Proof.
  eapply Forall_impl; [|apply readPackets_step, wfConn_initConn].
  intros r ([Hin _] & [Hout _] & Hrec).
  split; [exact Hin|]. split; [exact Hout|].
  destruct (Z.eqb_spec (Z.of_nat (len (messages (entryConn r)))) (readPos (entryConn r)));
    rewrite Hrec; split; split; intros; try lia; try congruence.
Qed.

(** ** A receive call that fails *)

(** C1. When [ReadPacket] is called with the batch exhausted and the
    receive call returns zero messages or an error, the call returns that
    error, but it leaves the cursor at 0 with the batch at its full length:
    the connection is not in the exhausted state, and the next call issues
    no receive call and takes slot 0 of the failed batch. *)
Theorem failed_receive_leaves_stale_batch {P : Protocol} (e : recvEnv) (c : oobConn) (g : globals) :
  wfConn c ->
  readPos c = Z.of_nat (len (messages c)) ->
  (rbN e =? 0) || negb (isNil (rbErr e)) = true ->
  exists c' g',
    ReadPacket e c g
    = (c', g', match rbErr e with Some err => Err err | None => Ok zeroPacket end)
    /\ receives g' = S (receives g)
    /\ readPos c' = 0
    /\ len (messages c') = Z.to_nat batchSize
    /\ readPos c' <> Z.of_nat (len (messages c'))
    /\ forall e',
         receives (snd (fst (ReadPacket e' c' g'))) = receives g'
         /\ readPos (fst (fst (ReadPacket e' c' g'))) = 1.
Proof.
  intros [Hcur Hshape] Hex Hfail.
  assert (Hbs : 0 <= batchSize) by (unfold batchSize; lia).
  pose proof Hshape as (Hcap & Hlen & _ & _).
  destruct (readNextBatch_spec e c g Hshape)
    as (c1 & g1 & r1 & Hrb & Hshape1 & Hrp1 & Hrec1 & Hr1 & Hres);
    [unfold cap in *; lia|].
  specialize (Hres Hfail). subst r1.
  assert (Hfull : len (messages c1) = Z.to_nat batchSize)
    by (destruct (rbErr e); exact Hr1).
  assert (Hwf1 : wfConn c1).
  { split; [unfold cursorInv; lia | exact Hshape1]. }
  exists c1, g1.
  split.
  { unfold ReadPacket, nextSlot.
    replace (Z.of_nat (len (messages c)) =? readPos c) with true
      by (symmetry; apply Z.eqb_eq; lia).
    rewrite Hrb. destruct (rbErr e); reflexivity. }
  split; [exact Hrec1|]. split; [exact Hrp1|]. split; [exact Hfull|].
  assert (Hne : readPos c1 <> Z.of_nat (len (messages c1)))
    by (rewrite Hrp1, Hfull; unfold batchSize; lia).
  split; [exact Hne|].
  intros e'.
  pose proof (ReadPacket_step e' c1 g1 Hwf1) as [_ Hrec].
  destruct (ReadPacket_conn e' c1 g1) as [Hc _].
  destruct (nextSlot_step e' c1 g1 Hwf1) as (c2 & g2 & r2 & Hn & _ & Hcase & _).
  replace (Z.of_nat (len (messages c1)) =? readPos c1) with false in *
    by (symmetry; apply Z.eqb_neq; congruence).
  split; [exact Hrec|].
  rewrite Hc, Hn. cbn [fst]. destruct Hcase as (_ & _ & ->).
  cbn [readPos set_conn]. lia.
Qed.

(** ** The send path *)

Lemma store_app_r (b m bs : list Z) (k : nat) :
  store (b ++ m) (length b + k) bs = b ++ store m k bs.
Proof.
  unfold store.
  rewrite firstn_app_2, <- app_assoc. f_equal. f_equal. f_equal.
  rewrite skipn_app.
  replace (length b + k + length bs - length b)%nat with (k + length bs)%nat by lia.
  rewrite skipn_all2 by lia. reflexivity.
Qed.

Lemma appendUDPSegmentSizeMsg_app (b : list Z) (size : Z) :
  appendUDPSegmentSizeMsg b size = b ++ segmentSizeRecord size.
Proof.
  unfold appendUDPSegmentSizeMsg.
  change (Z.to_nat (int (cmsgLen 0))) with 12%nat.
  rewrite <- (Nat.add_0_r (length b)) at 3.
  rewrite !store_app_r. reflexivity.
Qed.

(** What the two ECN builders return: a panic on [ECNUnsupported], and
    otherwise the buffer with one record appended. *)
Lemma appendIPv4ECNMsg_eq {P : Protocol} (b : list Z) (val : protocol.ECN) :
  appendIPv4ECNMsg b val
  = if protocol.ECN_eqb val protocol.ECNUnsupported
    then Panic (panicMsg "ECN unsupported")
    else Ok (b ++ tosRecord (ToHeaderBits val)).
Proof.
  unfold appendIPv4ECNMsg, ECN_ToHeaderBits.
  destruct (protocol.ECN_eqb val protocol.ECNUnsupported); [reflexivity|].
  change (Z.to_nat (int (cmsgSpace 0))) with 12%nat.
  rewrite <- (Nat.add_0_r (length b)) at 3.
  rewrite !store_app_r. reflexivity.
Qed.

Lemma appendIPv6ECNMsg_eq {P : Protocol} (b : list Z) (val : protocol.ECN) :
  appendIPv6ECNMsg b val
  = if protocol.ECN_eqb val protocol.ECNUnsupported
    then Panic (panicMsg "ECN unsupported")
    else Ok (b ++ tclassRecord (ToHeaderBits val)).
Proof.
  unfold appendIPv6ECNMsg, ECN_ToHeaderBits.
  destruct (protocol.ECN_eqb val protocol.ECNUnsupported); [reflexivity|].
  change (Z.to_nat (int (cmsgSpace 0))) with 12%nat.
  rewrite <- (Nat.add_0_r (length b)) at 3.
  rewrite !store_app_r. reflexivity.
Qed.

Lemma ECN_eqb_neq (val : protocol.ECN) :
  val <> protocol.ECNUnsupported ->
  protocol.ECN_eqb val protocol.ECNUnsupported = false.
Proof. destruct val; [contradiction | reflexivity ..]. Qed.

Lemma appendIPv4ECNMsg_app {P : Protocol} (b : list Z) (val : protocol.ECN) :
  val <> protocol.ECNUnsupported ->
  appendIPv4ECNMsg b val = Ok (b ++ tosRecord (ToHeaderBits val)).
Proof. intros H. rewrite appendIPv4ECNMsg_eq, (ECN_eqb_neq _ H). reflexivity. Qed.

Lemma appendIPv6ECNMsg_app {P : Protocol} (b : list Z) (val : protocol.ECN) :
  val <> protocol.ECNUnsupported ->
  appendIPv6ECNMsg b val = Ok (b ++ tclassRecord (ToHeaderBits val)).
Proof. intros H. rewrite appendIPv6ECNMsg_eq, (ECN_eqb_neq _ H). reflexivity. Qed.


(** C5. [WritePacket] with [gsoSize > 0] on a connection without GSO, or
    with an ECN value other than [ECNUnsupported] on a connection without
    ECN, panics through an explicit [panic] before [WriteMsgUDP] is called:
    no event is added to the trace. *)
Theorem WritePacket_capability_gate {P : Protocol} (e : sendEnv) (c : oobConn) (g : globals)
  (b : list Z) (dst : netAddr) (packetInfoOOB : list Z) (gsoSize : Z)
  (ecnVal : protocol.ECN) :
  (0 < gsoSize /\ GSO (capabilities c) = false)
  \/ (ecnVal <> protocol.ECNUnsupported /\ ECN (capabilities c) = false) ->
  exists msg,
    WritePacket e c g b dst packetInfoOOB gsoSize ecnVal = (g, Panic (panicMsg msg)).
Proof.
  intros [[Hgso Hcap] | [Hecn Hcap]]; unfold WritePacket.
  - replace (0 <? gsoSize) with true by (symmetry; apply Z.ltb_lt; exact Hgso).
    rewrite Hcap. cbn [negb]. eexists. reflexivity.
  - destruct (0 <? gsoSize).
    + destruct (GSO (capabilities c)); cbn [negb]; [|eexists; reflexivity].
      rewrite Hcap.
      destruct ecnVal; try contradiction; cbn [protocol.ECN_eqb negb];
        eexists; reflexivity.
    + rewrite Hcap.
      destruct ecnVal; try contradiction; cbn [protocol.ECN_eqb negb];
        eexists; reflexivity.
Qed.

(** C10. [WritePacket] with a destination that is not a UDP address pointer
    panics and calls no [WriteMsgUDP]; it never returns an error for it.
    The panic is the one of the unchecked type assertion whenever the
    capability checks before it let the call through.  Hence every
    [WriteMsgUDP] call that [WritePacket] issues goes to the UDP address
    pointer it was given. *)
Theorem WritePacket_only_UDP {P : Protocol} (e : sendEnv) (c : oobConn) (g : globals)
  (b : list Z) (dst : netAddr) (packetInfoOOB : list Z) (gsoSize : Z)
  (ecnVal : protocol.ECN) :
  (asUDPAddr dst = None ->
   (exists q, WritePacket e c g b dst packetInfoOOB gsoSize ecnVal = (g, Panic q))
   /\ (capabilitiesAllow c gsoSize ecnVal ->
       WritePacket e c g b dst packetInfoOOB gsoSize ecnVal
       = (g, Panic type_assertion_failed)))
  /\ (forall g' r,
        WritePacket e c g b dst packetInfoOOB gsoSize ecnVal = (g', r) ->
        (g' = g /\ exists q, r = Panic q)
        \/ (exists to oob,
              dst = udpAddr to /\ g' = emit (WriteMsgUDPCall b oob to) g
              /\ r = Ok (wrN e, wrErr e))).
Proof.
  split.
  - intros Hdst. unfold WritePacket, capabilitiesAllow. rewrite Hdst. split.
    + destruct (0 <? gsoSize); [destruct (GSO (capabilities c)); cbn [negb]|];
        try (eexists; reflexivity);
        destruct (protocol.ECN_eqb ecnVal protocol.ECNUnsupported); cbn [negb];
        try (eexists; reflexivity);
        destruct (ECN (capabilities c)); cbn [negb]; eexists; reflexivity.
    + intros [Hg He].
      destruct (Z.ltb_spec 0 gsoSize) as [Hpos|_];
        [rewrite (Hg Hpos); cbn [negb]|];
        (destruct ecnVal; cbn [protocol.ECN_eqb negb]; try reflexivity;
         rewrite He by discriminate; reflexivity).
  - intros g' r. unfold WritePacket.
    destruct (0 <? gsoSize); [destruct (GSO (capabilities c)); cbn [negb]|];
      try (intros H; injection H as <- <-; left; split; [reflexivity | eexists; reflexivity]);
      (destruct (protocol.ECN_eqb ecnVal protocol.ECNUnsupported) eqn:Hu; cbn [negb];
       [|destruct (ECN (capabilities c)); cbn [negb]]);
      try (intros H; injection H as <- <-; left; split; [reflexivity | eexists; reflexivity]);
      destruct dst as [|[a|]|net]; cbn [asUDPAddr];
      try (intros H; injection H as <- <-; left; split; [reflexivity | eexists; reflexivity]);
      try (destruct (To4_nonnil (IP a));
           rewrite ?appendIPv4ECNMsg_eq, ?appendIPv6ECNMsg_eq, Hu);
      intros H; injection H as <- <-; right; eexists _, _; repeat split.
Qed.

(** ** Control messages of a received packet *)

(** The packet handed to the control-message loop has no ECN mark and no
    packet info yet. *)
Lemma nextSlot_packet {P : Protocol} (e : recvEnv) (c c1 : oobConn) (g g1 : globals)
  (dat : slice Z) (p0 : receivedPacket) :
  nextSlot e c g = (c1, g1, Ok (inr (dat, p0))) ->
  info p0 = mkPacketInfo zeroAddr 0 /\ ecn p0 = protocol.ECNUnsupported.
Proof.
  assert (Ht : forall c2 c3, takeSlot e c2 = (c3, Ok (dat, p0)) ->
               info p0 = mkPacketInfo zeroAddr 0 /\ ecn p0 = protocol.ECNUnsupported).
  { intros c2 c3. unfold takeSlot.
    destruct (index (messages c2) (readPos c2)) as [msg| |]; try discriminate.
    destruct (nth_error (buffers c2) (Z.to_nat (readPos c2))); try discriminate.
    destruct (sliceTo (OOB msg) (NN msg)); try discriminate.
    destruct (Buffers msg) as [|b0 rest]; try discriminate.
    destruct (sliceTo b0 (N_ msg)); try discriminate.
    intros H. injection H as _ _ <-. split; reflexivity. }
  unfold nextSlot.
  destruct (Z.of_nat (len (messages c)) =? readPos c).
  - destruct (readNextBatch e c g) as [[c2 g2] [[p|]| |]]; try discriminate.
    destruct (takeSlot e c2) as [c3 [slot| |]] eqn:Hts; try discriminate.
    intros H. injection H as _ _ ->. eapply Ht. exact Hts.
  - destruct (takeSlot e c) as [c3 [slot| |]] eqn:Hts; try discriminate.
    intros H. injection H as _ _ ->. eapply Ht. exact Hts.
Qed.

(** The result of [ReadPacket] once the slot is taken: the loop body over
    the chain of the slot's ancillary data. *)
Lemma ReadPacket_chain {P : Protocol} (e : recvEnv) (c c1 : oobConn) (g g1 : globals)
  (dat : slice Z) (p0 : receivedPacket) (rs : list (Cmsghdr * slice Z)) (fin : outcome unit) :
  nextSlot e c g = (c1, g1, Ok (inr (dat, p0))) ->
  chainOf dat rs fin ->
  ReadPacket e c g = (let '(g', r) := finish fin (handleAll rs p0 g1) in (c1, g', r)).
Proof.
  intros Hn Hch. unfold ReadPacket. rewrite Hn.
  rewrite (cmsgLoop_chain _ _ _ Hch). reflexivity.
Qed.

(** C9. A record of the received chain whose (level, type) pair is none of
    the recognised ECN and packet-info pairs is skipped: the loop body
    returns for it without error and with the packet and the process state
    unchanged, and [ReadPacket] returns what it returns for the chain without
    that record, the records after it included. *)
Theorem unknown_record_skipped {P : Protocol} (e : recvEnv) (c c1 : oobConn) (g g1 : globals)
  (dat : slice Z) (p0 : receivedPacket)
  (rs1 rs2 : list (Cmsghdr * slice Z)) (hdr : Cmsghdr) (body : slice Z)
  (fin : outcome unit) :
  nextSlot e c g = (c1, g1, Ok (inr (dat, p0))) ->
  chainOf dat (rs1 ++ (hdr, body) :: rs2) fin ->
  recognised hdr = false ->
  (forall p g', handleCmsg hdr body p g' = (g', Ok p))
  /\ ReadPacket e c g
     = (let '(g', r) := finish fin (handleAll (rs1 ++ rs2) p0 g1) in (c1, g', r)).
Proof.
  intros Hn Hch Hrec. split.
  - intros p g'. apply handleCmsg_unrecognised. exact Hrec.
  - rewrite (ReadPacket_chain _ _ _ _ _ _ _ _ _ Hn Hch).
    rewrite handleAll_skip by exact Hrec. reflexivity.
Qed.

(** The packet the loop body produces does not depend on the process-wide
    state it starts from. *)
Lemma handleCmsg_outcome {P : Protocol} (hdr : Cmsghdr) (body : slice Z)
  (p : receivedPacket) (g g0 : globals) :
  snd (handleCmsg hdr body p g) = snd (handleCmsg hdr body p g0).
Proof.
  unfold handleCmsg, parseIPv4PktInfo. case_hdr hdr;
    repeat match goal with
           | |- context [index ?b ?i] => destruct (index b i)
           | |- context [(len ?b =? ?n)%nat] => destruct (len b =? n)%nat
           end; reflexivity.
Qed.

Lemma handleAll_outcome {P : Protocol} (rs : list (Cmsghdr * slice Z)) :
  forall p g g0, snd (handleAll rs p g) = snd (handleAll rs p g0).
Proof.
  induction rs as [|[hdr body] rs IH]; intros p g g0; cbn [handleAll]; [reflexivity|].
  pose proof (handleCmsg_outcome hdr body p g g0) as Hh.
  destruct (handleCmsg hdr body p g) as [ga [pa| |]],
           (handleCmsg hdr body p g0) as [gb [pb| |]];
    cbn [snd] in Hh; try discriminate Hh; try exact Hh.
  injection Hh as ->. apply IH.
Qed.

(** A packet-info record of unexpected size can be dropped from the chain
    without changing the packet or the error the loop body ends with. *)
Lemma handleAll_drop_bad {P : Protocol} (rs1 rs2 : list (Cmsghdr * slice Z))
  (hdr : Cmsghdr) (body : slice Z) :
  badPktInfo (hdr, body) = true ->
  forall p g, snd (handleAll (rs1 ++ (hdr, body) :: rs2) p g)
              = snd (handleAll (rs1 ++ rs2) p g).
Proof.
  intros Hbad. induction rs1 as [|[h b] rs1 IH]; intros p g; cbn [handleAll app].
  - destruct (handleCmsg_badPktInfo hdr body p g Hbad) as [g' ->].
    apply handleAll_outcome.
  - destruct (handleCmsg h b p g) as [g1 [p1| |]]; try reflexivity. apply IH.
Qed.

Lemma snd_finish (fin : outcome unit) (x y : globals * outcome receivedPacket) :
  snd x = snd y -> snd (finish fin x) = snd (finish fin y).
Proof.
  destruct x as [gx rx], y as [gy ry]. cbn [snd]. intros ->.
  destruct ry; [destruct fin|..]; reflexivity.
Qed.

Lemma badPktInfo_not_wellSized (r : Cmsghdr * slice Z) :
  badPktInfo r = true -> wellSizedPktInfo r = false.
Proof.
  destruct r as [hdr body]. intros Hbad. case_hdr hdr; try discriminate;
    repeat match goal with
           | H : context [(len ?b =? ?n)%nat] |- _ => destruct (len b =? n)%nat
           end; try discriminate; reflexivity.
Qed.

(** C8. A packet-info record of the received chain whose payload has not
    the expected size (8 bytes for IPv4, 20 for IPv6) does not make
    [ReadPacket] fail: the loop body returns for it with the packet
    unchanged, and [ReadPacket] returns what it returns for the chain without
    that record; when no other record of the chain sets the packet info, the
    packet returned has it unset.  And in any sequence of calls, on any
    connection, from the initial process state, at most one diagnostic line
    is logged per address family. *)
Theorem bad_pktinfo_tolerated {P : Protocol} (e : recvEnv) (c c1 : oobConn) (g g1 : globals)
  (dat : slice Z) (p0 : receivedPacket)
  (rs1 rs2 : list (Cmsghdr * slice Z)) (hdr : Cmsghdr) (body : slice Z)
  (fin : outcome unit) :
  nextSlot e c g = (c1, g1, Ok (inr (dat, p0))) ->
  chainOf dat (rs1 ++ (hdr, body) :: rs2) fin ->
  badPktInfo (hdr, body) = true ->
  (forall p g0, exists g', handleCmsg hdr body p g0 = (g', Ok p))
  /\ snd (ReadPacket e c g) = snd (finish fin (handleAll (rs1 ++ rs2) p0 g1))
  /\ (Forall (fun r => wellSizedPktInfo r = false) (rs1 ++ rs2) ->
      forall p, snd (ReadPacket e c g) = Ok p -> info p = mkPacketInfo zeroAddr 0)
  /\ (forall es c',
        Forall (fun r => (logged V4 (exitGlobals r) <= 1)%nat
                         /\ (logged V6 (exitGlobals r) <= 1)%nat)
               (readPackets es c' initGlobals)).
Proof.
  intros Hn Hch Hbad.
  assert (Hres : snd (ReadPacket e c g)
                 = snd (finish fin (handleAll (rs1 ++ (hdr, body) :: rs2) p0 g1))).
  { rewrite (ReadPacket_chain _ _ _ _ _ _ _ _ _ Hn Hch).
    destruct (finish fin (handleAll (rs1 ++ (hdr, body) :: rs2) p0 g1)). reflexivity. }
  split; [|split; [|split]].
  - intros p g0. apply handleCmsg_badPktInfo. exact Hbad.
  - rewrite Hres. apply snd_finish. apply handleAll_drop_bad. exact Hbad.
  - intros Hws p Hp. rewrite Hres in Hp.
    assert (Hws' : Forall (fun r => wellSizedPktInfo r = false)
                          (rs1 ++ (hdr, body) :: rs2)).
    { apply Forall_app in Hws. destruct Hws as [H1 H2].
      apply Forall_app. split; [exact H1|].
      constructor; [apply badPktInfo_not_wellSized; exact Hbad | exact H2]. }
    destruct (handleAll (rs1 ++ (hdr, body) :: rs2) p0 g1) as [g' [p'| |]] eqn:Hall;
      cbn [finish snd] in Hp; try discriminate Hp.
    destruct fin; cbn [snd] in Hp; try discriminate Hp. injection Hp as <-.
    rewrite (handleAll_info _ Hws' _ _ _ _ Hall).
    apply (nextSlot_packet _ _ _ _ _ _ _ Hn).
  - intros es c'. eapply Forall_impl; [|apply readPackets_onceInv, onceInv_initGlobals].
    intros r Hr. apply onceInv_at_most_once. exact Hr.
Qed.

(** Where the loop body returns for the records [rs] that come before it, a
    record that the parser rejects ends the [ReadPacket] call with [EINVAL]
    and leaves a well-formed connection whose cursor is past that slot; the
    next call issues a receive call exactly when the batch is exhausted, and
    takes the slot at the cursor otherwise. *)
Lemma malformed_chain_keeps_pipeline_valid {P : Protocol} (e : recvEnv) (c c1 : oobConn)
  (g g1 g2 : globals) (dat : slice Z) (p0 p2 : receivedPacket)
  (rs : list (Cmsghdr * slice Z)) (err : error) :
  wfConn c ->
  nextSlot e c g = (c1, g1, Ok (inr (dat, p0))) ->
  chainOf dat rs (Err err) ->
  handleAll rs p0 g1 = (g2, Ok p2) ->
  ReadPacket e c g = (c1, g2, Err EINVAL)
  /\ wfConn c1
  /\ readPos c1 = (if Z.of_nat (len (messages c)) =? readPos c then 1 else readPos c + 1)
  /\ (readPos c <> Z.of_nat (len (messages c)) -> messages c1 = messages c)
  /\ forall e' g',
       (readPos c1 = Z.of_nat (len (messages c1)) ->
        receives (snd (fst (ReadPacket e' c1 g'))) = S (receives g'))
       /\ (readPos c1 <> Z.of_nat (len (messages c1)) ->
           receives (snd (fst (ReadPacket e' c1 g'))) = receives g'
           /\ fst (fst (ReadPacket e' c1 g'))
              = set_conn c1 (readPos c1 + 1) (messages c1) (buffers c1)).
Proof.
  intros Hwf Hn Hch Hrs.
  destruct (nextSlot_step e c g Hwf) as (c1' & g1' & r' & Hn' & Hwf1 & Hcase & Hadv).
  rewrite Hn in Hn'. injection Hn' as <- <- <-.
  split.
  { rewrite (ReadPacket_chain _ _ _ _ _ _ _ _ _ Hn Hch), Hrs.
    cbn [finish]. rewrite (chainOf_err _ _ _ Hch). reflexivity. }
  split; [exact Hwf1|].
  split; [apply (Hadv _ eq_refl)|].
  split.
  { intros Hne.
    replace (Z.of_nat (len (messages c)) =? readPos c) with false in Hcase
      by (symmetry; apply Z.eqb_neq; congruence).
    destruct Hcase as (_ & _ & ->). reflexivity. }
  intros e' g'.
  pose proof (ReadPacket_step e' c1 g' Hwf1) as [_ Hrec].
  destruct (ReadPacket_conn e' c1 g') as [Hc _].
  destruct (nextSlot_step e' c1 g' Hwf1) as (c2 & g3 & r2 & Hn2 & _ & Hcase2 & _).
  split.
  - intros Hex. rewrite Hrec.
    replace (Z.of_nat (len (messages c1)) =? readPos c1) with true
      by (symmetry; apply Z.eqb_eq; congruence).
    reflexivity.
  - intros Hne.
    replace (Z.of_nat (len (messages c1)) =? readPos c1) with false in *
      by (symmetry; apply Z.eqb_neq; congruence).
    split; [exact Hrec|].
    rewrite Hc, Hn2. cbn [fst]. destruct Hcase2 as (_ & _ & ->). reflexivity.
Qed.

Lemma handleAll_app {P : Protocol} (rs1 rs2 : list (Cmsghdr * slice Z)) :
  forall p g,
    handleAll (rs1 ++ rs2) p g
    = match handleAll rs1 p g with
      | (g', Ok p') => handleAll rs2 p' g'
      | other => other
      end.
Proof.
  induction rs1 as [|[h b] rs1 IH]; intros p g; cbn [handleAll app]; [reflexivity|].
  destruct (handleCmsg h b p g) as [g1 [p1| |]]; try reflexivity. apply IH.
Qed.

(** The ECN branches of the loop body read [body[0]] without looking at the
    length of the payload, which the packet-info branches do look at. *)
Lemma handleCmsg_ecn_without_payload {P : Protocol} (hdr : Cmsghdr) (body : slice Z)
  (p : receivedPacket) (g : globals) :
  isECNRecord hdr = true ->
  len body = 0%nat ->
  handleCmsg hdr body p g = (g, Panic index_out_of_range).
Proof.
  intros Hecn Hlen.
  assert (Hidx : index body 0 = Panic index_out_of_range).
  { unfold index. rewrite Hlen. reflexivity. }
  unfold handleCmsg. unfold isECNRecord in Hecn. case_hdr hdr; try discriminate;
    rewrite ?Hidx; reflexivity.
Qed.

(** C7. A [ReadPacket] call whose slot holds a malformed chain does not
    return [EINVAL] when an ECN record without payload comes before the
    record that the parser rejects: the loop body reads [body[0]] of that
    record without a length check, and the call panics with an index out of
    range before the parser reaches the rejected record. *)
Theorem malformed_chain_behind_empty_ecn_record_panics {P : Protocol} (e : recvEnv)
  (c c1 : oobConn) (g g1 g2 : globals) (dat : slice Z) (p0 p2 : receivedPacket)
  (rs rs' : list (Cmsghdr * slice Z)) (hdr : Cmsghdr) (body : slice Z) (err : error) :
  nextSlot e c g = (c1, g1, Ok (inr (dat, p0))) ->
  chainOf dat (rs ++ (hdr, body) :: rs') (Err err) ->
  handleAll rs p0 g1 = (g2, Ok p2) ->
  isECNRecord hdr = true ->
  len body = 0%nat ->
  ReadPacket e c g = (c1, g2, Panic index_out_of_range)
  /\ snd (ReadPacket e c g) <> Err EINVAL.
Proof.
  intros Hn Hch Hrs Hecn Hlen.
  assert (HR : ReadPacket e c g = (c1, g2, Panic index_out_of_range)).
  { rewrite (ReadPacket_chain _ _ _ _ _ _ _ _ _ Hn Hch).
    rewrite handleAll_app, Hrs. cbn [handleAll].
    rewrite (handleCmsg_ecn_without_payload _ _ _ _ Hecn Hlen). reflexivity. }
  split; [exact HR|]. rewrite HR. discriminate.
Qed.

(** ** The IPv4 packet-info payload *)

(** The interface index is decoded from the first four bytes of the payload,
    the bytes of the address. *)
Lemma parseIPv4PktInfo_eq (body : slice Z) :
  len body = 8%nat ->
  parseIPv4PktInfo body
  = (AddrFrom4 (firstn 4 (elems body)), le_decode (firstn 4 (elems body)), true).
Proof. intros H. unfold parseIPv4PktInfo. rewrite H. reflexivity. Qed.

(** C4. A received IPv4 packet-info record with destination 192.168.1.2 in
    payload bytes 0-3 and interface index 7 in payload bytes 4-7:
    [ReadPacket] returns the packet with that address, but with the
    interface index 33663168, which is bytes 0-3 (the address) read as a
    little-endian integer, not the 7 of bytes 4-7. *)
Theorem pktinfo_ifIndex_read_from_address_bytes :
  exists c' g' p,
    ReadPacket (P := exampleProtocol) (received pktinfoRecord) freshConn initGlobals
    = (c', g', Ok p)
    /\ addr (info p) = addr4 [192; 168; 1; 2]
    /\ ifIndex (info p) = le_decode [192; 168; 1; 2]
    /\ ifIndex (info p) = 33663168
    /\ le_decode [7; 0; 0; 0] = 7
    /\ ifIndex (info p) <> le_decode [7; 0; 0; 0].
Proof.
  eexists _, _, _. split; [vm_compute; reflexivity|].
  cbn [info addr ifIndex]. repeat split. vm_compute. discriminate.
Qed.

(** * The theorems at concrete inputs *)

Lemma slotTaken_eq (e : recvEnv) (dat : slice Z) (p : receivedPacket) :
  snd (slotTaken e) = Ok (inr (dat, p)) ->
  nextSlot (P := exampleProtocol) e freshConn initGlobals
  = (connAfter e, globalsAfter e, Ok (inr (dataTaken e, packetTaken e))).
Proof.
  unfold connAfter, globalsAfter, dataTaken, packetTaken, slotTaken.
  destruct (nextSlot e freshConn initGlobals) as [[c1 g1] r]. cbn [fst snd].
  intros ->. reflexivity.
Qed.

Lemma segment_size_roundtrip_witness :
  0 <= 1200 < 2 ^ 16
  /\ exists hdr body remainder,
       snd (ParseOneSocketControlMessage (sliceOf (appendUDPSegmentSizeMsg [] 1200)))
       = Ok (hdr, body, remainder)
       /\ hdr = mkCmsghdr 14 windows.IPPROTO_UDP UDP_SEND_MSG_SIZE
       /\ len body = 2%nat
       /\ le_decode (elems body) = 1200
       /\ len remainder = 0%nat.
Proof.
  split; [lia | apply (segment_size_roundtrip 1200); lia].
Defined.

Lemma ParseOne_short_buffer_overread_witness :
  (0 < len (oobPrefix shortPktinfoRecord 1) < 4)%nat
  /\ (len (oobPrefix shortPktinfoRecord 1) <= cap (oobPrefix shortPktinfoRecord 1))%nat
  /\ fst (ParseOneSocketControlMessage (oobPrefix shortPktinfoRecord 1)) = 4%nat
  /\ (len (oobPrefix shortPktinfoRecord 1)
      < fst (ParseOneSocketControlMessage (oobPrefix shortPktinfoRecord 1)))%nat.
Proof.
  assert (H1 : (0 < len (oobPrefix shortPktinfoRecord 1) < 4)%nat) by (cbn; lia).
  assert (H2 : (len (oobPrefix shortPktinfoRecord 1)
                <= cap (oobPrefix shortPktinfoRecord 1))%nat) by (vm_compute; lia).
  destruct (ParseOne_short_buffer_overread (oobPrefix shortPktinfoRecord 1) H1 H2)
    as (Hfp & Hlt & _).
  repeat split; try exact Hfp; try exact Hlt; try apply H1; exact H2.
Defined.

Lemma failed_receive_witness :
  wfConn freshConn
  /\ readPos freshConn = Z.of_nat (len (messages freshConn))
  /\ (rbN timedOut =? 0) || negb (isNil (rbErr timedOut)) = true
  /\ exists c' g',
       ReadPacket (P := exampleProtocol) timedOut freshConn initGlobals
       = (c', g', Err (osError 10060))
       /\ readPos c' = 0
       /\ readPos c' <> Z.of_nat (len (messages c'))
       /\ forall e',
            receives (snd (fst (ReadPacket (P := exampleProtocol) e' c' g'))) = receives g'.
Proof.
  split; [apply wfConn_initConn|]. split; [reflexivity|]. split; [reflexivity|].
  destruct (failed_receive_leaves_stale_batch (P := exampleProtocol)
              timedOut freshConn initGlobals (wfConn_initConn _ _) eq_refl eq_refl)
    as (c' & g' & Hret & _ & Hrp & _ & Hne & Hnext).
  exists c', g'. repeat split; try assumption. apply Hnext.
Defined.

Lemma WritePacket_capability_gate_witness :
  (0 < 1200 /\ GSO (capabilities freshConn) = false)
  /\ exists msg,
       WritePacket (P := exampleProtocol) (mkSendEnv 3 None) freshConn initGlobals
                   [1; 2; 3] peer [] 1200 protocol.ECNUnsupported
       = (initGlobals, Panic (panicMsg msg)).
Proof.
  split; [split; [lia | reflexivity]|].
  apply WritePacket_capability_gate. left. split; [lia | reflexivity].
Defined.

Lemma WritePacket_only_UDP_witness :
  asUDPAddr (otherAddr "unix") = None
  /\ WritePacket (P := exampleProtocol) (mkSendEnv 3 None) freshConn initGlobals
                 [1; 2; 3] (otherAddr "unix") [] 0 protocol.ECNUnsupported
     = (initGlobals, Panic type_assertion_failed).
Proof.
  split; [reflexivity|].
  apply (proj1 (WritePacket_only_UDP (P := exampleProtocol) (mkSendEnv 3 None) freshConn
                  initGlobals [1; 2; 3] (otherAddr "unix") [] 0 protocol.ECNUnsupported));
    [reflexivity|].
  split; [lia | congruence].
Defined.

Lemma malformed_chain_witness :
  wfConn freshConn
  /\ chainOf (dataTaken (received overlongRecord)) [] (Err EINVAL)
  /\ ReadPacket (P := exampleProtocol) (received overlongRecord) freshConn initGlobals
     = (connAfter (received overlongRecord), globalsAfter (received overlongRecord),
        Err EINVAL)
  /\ wfConn (connAfter (received overlongRecord))
  /\ readPos (connAfter (received overlongRecord)) = 1.
Proof.
  assert (Hch : chainOf (dataTaken (received overlongRecord)) [] (Err EINVAL)).
  { apply chain_err; [vm_compute; discriminate | vm_compute; reflexivity]. }
  split; [apply wfConn_initConn|]. split; [exact Hch|].
  destruct (malformed_chain_keeps_pipeline_valid (P := exampleProtocol)
              (received overlongRecord) freshConn (connAfter (received overlongRecord))
              initGlobals (globalsAfter (received overlongRecord))
              (globalsAfter (received overlongRecord))
              (dataTaken (received overlongRecord)) (packetTaken (received overlongRecord))
              (packetTaken (received overlongRecord))
              [] EINVAL (wfConn_initConn _ _))
    as (Hret & Hwf & Hrp & _).
  - eapply slotTaken_eq. vm_compute. reflexivity.
  - exact Hch.
  - reflexivity.
  - split; [exact Hret|]. split; [exact Hwf|]. exact Hrp.
Defined.

Lemma malformed_chain_behind_empty_ecn_record_witness :
  exists body,
    chainOf (dataTaken (received emptyEcnThenOverlong))
            ([] ++ (mkCmsghdr 12 windows.IPPROTO_IP windows.IP_TOS, body) :: [])
            (Err EINVAL)
    /\ isECNRecord (mkCmsghdr 12 windows.IPPROTO_IP windows.IP_TOS) = true
    /\ len body = 0%nat
    /\ ReadPacket (P := exampleProtocol) (received emptyEcnThenOverlong) freshConn
                  initGlobals
       = (connAfter (received emptyEcnThenOverlong),
          globalsAfter (received emptyEcnThenOverlong), Panic index_out_of_range).
Proof.
  assert (Hch : chainOf (dataTaken (received emptyEcnThenOverlong))
                  ([] ++ (mkCmsghdr 12 windows.IPPROTO_IP windows.IP_TOS,
                          mkSlice (skipn 12 (mem (dataTaken (received emptyEcnThenOverlong))))
                                  0) :: [])
                  (Err EINVAL)).
  { eapply chain_record; [vm_compute; discriminate | vm_compute; reflexivity |].
    apply chain_err; [vm_compute; discriminate | vm_compute; reflexivity]. }
  eexists. split; [exact Hch|]. split; [reflexivity|]. split; [reflexivity|].
  apply (malformed_chain_behind_empty_ecn_record_panics (P := exampleProtocol)
           (received emptyEcnThenOverlong) freshConn
           (connAfter (received emptyEcnThenOverlong))
           initGlobals (globalsAfter (received emptyEcnThenOverlong))
           (globalsAfter (received emptyEcnThenOverlong))
           (dataTaken (received emptyEcnThenOverlong))
           (packetTaken (received emptyEcnThenOverlong))
           (packetTaken (received emptyEcnThenOverlong))
           [] [] (mkCmsghdr 12 windows.IPPROTO_IP windows.IP_TOS)
           (mkSlice (skipn 12 (mem (dataTaken (received emptyEcnThenOverlong)))) 0)
           EINVAL).
  - eapply slotTaken_eq. vm_compute. reflexivity.
  - exact Hch.
  - reflexivity.
  - reflexivity.
  - reflexivity.
Defined.

Lemma bad_pktinfo_witness :
  chainOf (dataTaken (received shortPktinfoRecord)) ([] ++ shortPktinfoRecordParsed :: [])
          (Ok tt)
  /\ badPktInfo shortPktinfoRecordParsed = true
  /\ snd (ReadPacket (P := exampleProtocol) (received shortPktinfoRecord) freshConn
            initGlobals)
     = Ok (packetTaken (received shortPktinfoRecord))
  /\ info (packetTaken (received shortPktinfoRecord)) = mkPacketInfo zeroAddr 0.
Proof.
  assert (Hch : chainOf (dataTaken (received shortPktinfoRecord))
                        ([] ++ (fst shortPktinfoRecordParsed, snd shortPktinfoRecordParsed)
                            :: [])
                        (Ok tt)).
  { eapply chain_record; [vm_compute; discriminate | vm_compute; reflexivity |].
    apply chain_end. reflexivity. }
  assert (Hbad : badPktInfo (fst shortPktinfoRecordParsed, snd shortPktinfoRecordParsed)
                 = true) by (vm_compute; reflexivity).
  destruct (bad_pktinfo_tolerated (P := exampleProtocol)
              (received shortPktinfoRecord) freshConn (connAfter (received shortPktinfoRecord))
              initGlobals (globalsAfter (received shortPktinfoRecord))
              (dataTaken (received shortPktinfoRecord))
              (packetTaken (received shortPktinfoRecord))
              [] [] (fst shortPktinfoRecordParsed) (snd shortPktinfoRecordParsed) (Ok tt))
    as (_ & Hres & Hinfo & _).
  - eapply slotTaken_eq. vm_compute. reflexivity.
  - exact Hch.
  - exact Hbad.
  - split; [exact Hch|]. split; [exact Hbad|].
    split; [exact Hres|]. apply Hinfo; [constructor | exact Hres].
Defined.

Lemma unknown_record_witness :
  recognised (fst mixedUnknown) = false
  /\ chainOf (dataTaken (received mixedChain))
             (mixedBefore ++ mixedUnknown :: mixedAfter) (Ok tt)
  /\ ReadPacket (P := exampleProtocol) (received mixedChain) freshConn initGlobals
     = (let '(g', r) :=
          finish (Ok tt)
            (handleAll (P := exampleProtocol) (mixedBefore ++ mixedAfter)
               (packetTaken (received mixedChain)) (globalsAfter (received mixedChain))) in
        (connAfter (received mixedChain), g', r)).
Proof.
  assert (Hch : chainOf (dataTaken (received mixedChain))
                        (mixedBefore ++ (fst mixedUnknown, snd mixedUnknown) :: mixedAfter)
                        (Ok tt)).
  { eapply chain_record; [vm_compute; discriminate | vm_compute; reflexivity |].
    eapply chain_record; [vm_compute; discriminate | vm_compute; reflexivity |].
    eapply chain_record; [vm_compute; discriminate | vm_compute; reflexivity |].
    apply chain_end. reflexivity. }
  split; [reflexivity|]. split; [exact Hch|].
  refine (proj2 (unknown_record_skipped (P := exampleProtocol)
            (received mixedChain) freshConn (connAfter (received mixedChain))
            initGlobals (globalsAfter (received mixedChain))
            (dataTaken (received mixedChain)) (packetTaken (received mixedChain))
            mixedBefore mixedAfter (fst mixedUnknown) (snd mixedUnknown) (Ok tt)
            _ Hch eq_refl)).
  eapply slotTaken_eq. vm_compute. reflexivity.
Defined.

(** The scenario of the mixed chain: ECT(0) from the ECN record, the address
    from the packet-info record, nothing from the record of level 99. *)
Lemma mixed_chain_result :
  exists c' g' p,
    ReadPacket (P := exampleProtocol) (received mixedChain) freshConn initGlobals
    = (c', g', Ok p)
    /\ ecn p = protocol.ECT0
    /\ addr (info p) = addr4 [192; 168; 1; 2]
    /\ remoteAddr p = peer.
Proof.
  eexists _, _, _. split; [vm_compute; reflexivity|]. repeat split.
Qed.

(** The loop body indexes the payload of an ECN record without looking at
    its length: on an ECN record that declares no payload [ReadPacket]
    panics. *)
Lemma ecn_record_without_payload_panics :
  snd (ReadPacket (P := exampleProtocol) (received emptyEcnRecord) freshConn initGlobals)
  = Panic index_out_of_range.
Proof. vm_compute. reflexivity. Qed.

(** * Further properties of the code *)

(** ** The records the send path builds *)

(** X1. [appendUDPSegmentSizeMsg] leaves the bytes already in the buffer as
    they are and appends exactly one 16-byte record: length 14, level
    IPPROTO_UDP, type UDP_SEND_MSG_SIZE, the size as two little-endian
    bytes, two bytes of padding. *)
Theorem appendUDPSegmentSizeMsg_appends (b : list Z) (size : Z) :
  appendUDPSegmentSizeMsg b size
  = b ++ [14; 0; 0; 0;  17; 0; 0; 0;  2; 0; 0; 0;  size mod 256; size / 256 mod 256;  0; 0]
  /\ length (appendUDPSegmentSizeMsg b size) = (length b + 16)%nat.
Proof.
  rewrite appendUDPSegmentSizeMsg_app. split; [reflexivity|].
  rewrite length_app. reflexivity.
Qed.

(** On [ECNUnsupported] the two ECN builders panic in [ToHeaderBits] and
    return no buffer. *)
Lemma appendECNMsg_unsupported_panics {P : Protocol} (b : list Z) :
  appendIPv4ECNMsg b protocol.ECNUnsupported = Panic (panicMsg "ECN unsupported")
  /\ appendIPv6ECNMsg b protocol.ECNUnsupported = Panic (panicMsg "ECN unsupported").
Proof. rewrite appendIPv4ECNMsg_eq, appendIPv6ECNMsg_eq. split; reflexivity. Qed.

(** X2. For an ECN value other than [ECNUnsupported] (on which
    [ToHeaderBits] panics), [appendIPv4ECNMsg] and [appendIPv6ECNMsg] return
    without panic, leave the bytes already in the buffer as they are and
    append exactly one 16-byte record of length 16, at (IPPROTO_IP, IP_TOS)
    and at (IPPROTO_IPV6, IPV6_RECVTCLASS), whose payload is the ECN header
    bits followed by three zero bytes. *)
Theorem appendECNMsg_appends {P : Protocol} (b : list Z) (val : protocol.ECN) :
  val <> protocol.ECNUnsupported ->
  appendIPv4ECNMsg b val
  = Ok (b ++ [16; 0; 0; 0;  0; 0; 0; 0;  3; 0; 0; 0;  ToHeaderBits val; 0; 0; 0])
  /\ appendIPv6ECNMsg b val
     = Ok (b ++ [16; 0; 0; 0;  41; 0; 0; 0;  40; 0; 0; 0;  ToHeaderBits val; 0; 0; 0]).
Proof.
  intros Hval.
  rewrite (appendIPv4ECNMsg_app _ _ Hval), (appendIPv6ECNMsg_app _ _ Hval).
  split; reflexivity.
Qed.

Lemma appendECNMsg_appends_witness :
  protocol.ECNCE <> protocol.ECNUnsupported
  /\ appendIPv4ECNMsg (P := exampleProtocol) [7; 7] protocol.ECNCE
     = Ok [7; 7;  16; 0; 0; 0;  0; 0; 0; 0;  3; 0; 0; 0;  3; 0; 0; 0]
  /\ appendIPv6ECNMsg (P := exampleProtocol) [7; 7] protocol.ECNCE
     = Ok [7; 7;  16; 0; 0; 0;  41; 0; 0; 0;  40; 0; 0; 0;  3; 0; 0; 0].
Proof.
  assert (H : protocol.ECNCE <> protocol.ECNUnsupported) by discriminate.
  split; [exact H|].
  apply (appendECNMsg_appends (P := exampleProtocol) [7; 7] protocol.ECNCE H).
Defined.

(** X3. When the capability checks let the call through and the destination
    is a UDP address, [WritePacket] issues exactly one [WriteMsgUDP] and
    returns its [n] and [err] as they are.  The ancillary data of that call
    is the caller's data, then the segmentation-size record when
    [gsoSize > 0], then the ECN record when the ECN value is not
    [ECNUnsupported]: the IPv4 record for an address with a 4-byte form, the
    IPv6 record otherwise. *)
Theorem WritePacket_sends {P : Protocol} (e : sendEnv) (c : oobConn) (g : globals)
  (b : list Z) (a : UDPAddr) (packetInfoOOB : list Z) (gsoSize : Z)
  (ecnVal : protocol.ECN) :
  capabilitiesAllow c gsoSize ecnVal ->
  WritePacket e c g b (udpAddr (Some a)) packetInfoOOB gsoSize ecnVal
  = (emit (WriteMsgUDPCall b
             (packetInfoOOB
              ++ (if 0 <? gsoSize then segmentSizeRecord gsoSize else [])
              ++ (if protocol.ECN_eqb ecnVal protocol.ECNUnsupported then []
                  else if To4_nonnil (IP a) then tosRecord (ToHeaderBits ecnVal)
                       else tclassRecord (ToHeaderBits ecnVal)))
             (Some a)) g,
     Ok (wrN e, wrErr e)).
Proof.
  intros [Hgso Hecn]. unfold WritePacket.
  assert (Hecn' : protocol.ECN_eqb ecnVal protocol.ECNUnsupported = false ->
                  ECN (capabilities c) = true).
  { intros H. apply Hecn. intros ->. discriminate H. }
  destruct (Z.ltb_spec 0 gsoSize) as [Hpos|_].
  - rewrite (Hgso Hpos). cbn [negb]. rewrite appendUDPSegmentSizeMsg_app.
    destruct (protocol.ECN_eqb ecnVal protocol.ECNUnsupported) eqn:He; cbn [negb asUDPAddr].
    + rewrite app_nil_r. reflexivity.
    + rewrite (Hecn' eq_refl). cbn [negb].
      destruct (To4_nonnil (IP a));
        rewrite ?appendIPv4ECNMsg_eq, ?appendIPv6ECNMsg_eq, He, <- app_assoc; reflexivity.
  - destruct (protocol.ECN_eqb ecnVal protocol.ECNUnsupported) eqn:He; cbn [negb asUDPAddr].
    + rewrite app_nil_r. reflexivity.
    + rewrite (Hecn' eq_refl). cbn [negb].
      destruct (To4_nonnil (IP a));
        rewrite ?appendIPv4ECNMsg_eq, ?appendIPv6ECNMsg_eq, He; reflexivity.
Qed.

Lemma WritePacket_sends_witness :
  capabilitiesAllow (initConn false true) 1200 protocol.ECT0
  /\ WritePacket (P := exampleProtocol) (mkSendEnv 3 None) (initConn false true) initGlobals
                 [1; 2; 3] (udpAddr (Some (mkUDPAddr [10; 0; 0; 1] 4433))) [] 1200
                 protocol.ECT0
     = (emit (WriteMsgUDPCall [1; 2; 3] (segmentSizeRecord 1200 ++ tosRecord 2)
                (Some (mkUDPAddr [10; 0; 0; 1] 4433))) initGlobals,
        Ok (3, None)).
Proof.
  assert (H : capabilitiesAllow (initConn false true) 1200 protocol.ECT0)
    by (split; intros; reflexivity).
  split; [exact H|].
  apply (WritePacket_sends (P := exampleProtocol) (mkSendEnv 3 None) (initConn false true)
           initGlobals [1; 2; 3] (mkUDPAddr [10; 0; 0; 1] 4433) [] 1200 protocol.ECT0 H).
Defined.

(** ** Reading back what the send path builds *)

(** X4. For a 16-bit segment size and an ECN value other than
    [ECNUnsupported], the send path builds its ancillary data from an empty
    buffer without panic, and these data, the segmentation-size record
    followed by the IPv4 ECN record, are a chain of exactly these two
    records: the parser yields the first with a payload that decodes to the
    size, then the second with the header bits as first payload byte, and
    then the chain ends. *)
Theorem sent_ancillary_data_parses {P : Protocol} (size : Z) (val : protocol.ECN) :
  0 <= size < 2 ^ 16 ->
  val <> protocol.ECNUnsupported ->
  exists oob body1 body2,
    appendIPv4ECNMsg (appendUDPSegmentSizeMsg [] size) val = Ok oob
    /\ chainOf (sliceOf oob)
               [(mkCmsghdr 14 windows.IPPROTO_UDP UDP_SEND_MSG_SIZE, body1);
                (mkCmsghdr 16 windows.IPPROTO_IP windows.IP_TOS, body2)]
               (Ok tt)
    /\ le_decode (elems body1) = size
    /\ elems body2 = [ToHeaderBits val; 0; 0; 0].
Proof.
  intros Hsize Hval.
  rewrite (appendIPv4ECNMsg_app _ _ Hval), appendUDPSegmentSizeMsg_app. cbn [app].
  eexists _, _, _. split; [reflexivity|]. split; [|split].
  - eapply chain_record; [discriminate | reflexivity |].
    eapply chain_record; [discriminate | reflexivity |].
    apply chain_end. reflexivity.
  - change (le_decode [size mod 256; size / 256 mod 256] = size).
    apply le_decode_encode_2. exact Hsize.
  - reflexivity.
Qed.

Lemma sent_ancillary_data_parses_witness :
  0 <= 1200 < 2 ^ 16
  /\ protocol.ECT0 <> protocol.ECNUnsupported
  /\ exists oob body1 body2,
       appendIPv4ECNMsg (P := exampleProtocol) (appendUDPSegmentSizeMsg [] 1200)
                        protocol.ECT0 = Ok oob
       /\ chainOf (sliceOf oob)
                  [(mkCmsghdr 14 windows.IPPROTO_UDP UDP_SEND_MSG_SIZE, body1);
                   (mkCmsghdr 16 windows.IPPROTO_IP windows.IP_TOS, body2)]
                  (Ok tt)
       /\ le_decode (elems body1) = 1200
       /\ elems body2 = [2; 0; 0; 0].
Proof.
  assert (H : protocol.ECT0 <> protocol.ECNUnsupported) by discriminate.
  split; [lia|]. split; [exact H|].
  apply (sent_ancillary_data_parses (P := exampleProtocol) 1200 protocol.ECT0); [lia|exact H].
Defined.

(** X5. For an ECN value other than [ECNUnsupported], [appendIPv4ECNMsg]
    and [appendIPv6ECNMsg] build a record, and the control-message loop of
    [ReadPacket] reads that record back as [ParseECNHeaderBits] of the low
    two bits of [ToHeaderBits] of the value; nothing else of the packet and
    nothing of the process state changes. *)
Theorem ecn_record_read_back {P : Protocol} (val : protocol.ECN)
  (p : receivedPacket) (g : globals) :
  val <> protocol.ECNUnsupported ->
  exists oob4 oob6,
    appendIPv4ECNMsg [] val = Ok oob4
    /\ appendIPv6ECNMsg [] val = Ok oob6
    /\ cmsgLoop (sliceOf oob4) p g
       = (g, Ok (set_ecn p (ParseECNHeaderBits (Z.land (ToHeaderBits val) ecnMask))))
    /\ cmsgLoop (sliceOf oob6) p g
       = (g, Ok (set_ecn p (ParseECNHeaderBits (Z.land (ToHeaderBits val) ecnMask)))).
Proof.
  intros Hval.
  rewrite (appendIPv4ECNMsg_app _ _ Hval), (appendIPv6ECNMsg_app _ _ Hval). cbn [app].
  eexists _, _. split; [reflexivity|]. split; [reflexivity|].
  split.
  - rewrite cmsgLoop_eq.
    change (snd (ParseOneSocketControlMessage (sliceOf (tosRecord (ToHeaderBits val)))))
      with (@Ok (Cmsghdr * slice Z * slice Z)
              (mkCmsghdr 16 0 3, mkSlice [ToHeaderBits val; 0; 0; 0] 4, nilSlice)).
    cbn [sliceOf len length tosRecord Nat.eqb]. reflexivity.
  - rewrite cmsgLoop_eq.
    change (snd (ParseOneSocketControlMessage (sliceOf (tclassRecord (ToHeaderBits val)))))
      with (@Ok (Cmsghdr * slice Z * slice Z)
              (mkCmsghdr 16 41 40, mkSlice [ToHeaderBits val; 0; 0; 0] 4, nilSlice)).
    cbn [sliceOf len length tclassRecord Nat.eqb]. reflexivity.
Qed.

Lemma ecn_record_read_back_witness :
  protocol.ECT0 <> protocol.ECNUnsupported
  /\ exists oob4 oob6,
       appendIPv4ECNMsg (P := exampleProtocol) [] protocol.ECT0 = Ok oob4
       /\ appendIPv6ECNMsg (P := exampleProtocol) [] protocol.ECT0 = Ok oob6
       /\ cmsgLoop (P := exampleProtocol) (sliceOf oob4) zeroPacket initGlobals
          = (initGlobals, Ok (set_ecn zeroPacket protocol.ECT0))
       /\ cmsgLoop (P := exampleProtocol) (sliceOf oob6) zeroPacket initGlobals
          = (initGlobals, Ok (set_ecn zeroPacket protocol.ECT0)).
Proof.
  assert (H : protocol.ECT0 <> protocol.ECNUnsupported) by discriminate.
  split; [exact H|].
  apply (ecn_record_read_back (P := exampleProtocol) protocol.ECT0 zeroPacket initGlobals H).
Defined.

(** ** Alignment *)

(** X6. [cmsgDataAlign] and [cmsgHdrAlign] round a length up to the next
    multiple of four: the result is a multiple of four, not below the
    length and less than four above it, and a multiple of four is left as
    it is.  Within three of the top of the [uintptr] range the addition
    wraps and the result is 0. *)
Theorem cmsgDataAlign_rounds_up (x : Z) :
  0 <= x < 2 ^ 64 ->
  cmsgHdrAlign x = cmsgDataAlign x
  /\ (x < 2 ^ 64 - 3 ->
      cmsgDataAlign x mod 4 = 0
      /\ x <= cmsgDataAlign x < x + 4
      /\ (x mod 4 = 0 -> cmsgDataAlign x = x))
  /\ (2 ^ 64 - 3 <= x -> cmsgDataAlign x = 0).
Proof.
  intros Hx. split; [reflexivity|]. split.
  - intros Hlt. rewrite cmsgDataAlign_eq by lia.
    pose proof (Z.div_mod (x + 3) 4 ltac:(lia)) as Hd.
    pose proof (Z.mod_pos_bound (x + 3) 4 ltac:(lia)) as Hm.
    split; [|split].
    + rewrite Z.mul_comm. apply Z.mod_mul. lia.
    + lia.
    + intros H4.
      assert (Hq : (x + 3) / 4 = x / 4).
      { pose proof (Z.div_mod x 4 ltac:(lia)) as Hdx.
        symmetry. apply (Z.div_unique (x + 3) 4 (x / 4) 3); lia. }
      pose proof (Z.div_mod x 4 ltac:(lia)). lia.
  - intros Hhi.
    assert (Hc : x = 2 ^ 64 - 3 \/ x = 2 ^ 64 - 2 \/ x = 2 ^ 64 - 1) by lia.
    destruct Hc as [-> | [-> | ->]]; reflexivity.
Qed.

Lemma cmsgDataAlign_rounds_up_witness :
  0 <= 14 < 2 ^ 64
  /\ cmsgDataAlign 14 = 16
  /\ cmsgDataAlign 14 mod 4 = 0
  /\ 14 <= cmsgDataAlign 14 < 14 + 4.
Proof.
  assert (H : 0 <= 14 < 2 ^ 64) by lia.
  destruct (cmsgDataAlign_rounds_up 14 H) as (_ & Hlo & _).
  destruct (Hlo ltac:(lia)) as (Hm & Hb & _).
  split; [exact H|]. split; [reflexivity|]. split; [exact Hm | exact Hb].
Defined.

(** X7. For a payload of [n] bytes, [cmsgLen] is the header size plus [n],
    and [cmsgSpace] is that rounded up to a multiple of four: the space of a
    record is a multiple of four, not below its length and less than four
    above it. *)
Theorem cmsgLen_cmsgSpace (n : Z) :
  0 <= n < 2 ^ 32 ->
  cmsgLen n = cmsgSize + n
  /\ cmsgSpace n = cmsgDataAlign (cmsgLen n)
  /\ cmsgSpace n mod 4 = 0
  /\ cmsgLen n <= cmsgSpace n < cmsgLen n + 4.
Proof.
  intros Hn.
  assert (HL : cmsgLen n = 12 + n).
  { unfold cmsgLen. rewrite cmsgDataAlign_cmsgSize. apply uintptr_small. lia. }
  assert (HS : cmsgSpace n = 12 + 4 * ((n + 3) / 4)).
  { unfold cmsgSpace. change (cmsgHdrAlign n) with (cmsgDataAlign n).
    rewrite (cmsgDataAlign_eq n) by lia.
    pose proof (Z.div_mod (n + 3) 4 ltac:(lia)) as Hd.
    pose proof (Z.mod_pos_bound (n + 3) 4 ltac:(lia)) as Hm.
    unfold cmsgSize. rewrite uintptr_small by lia.
    rewrite cmsgDataAlign_eq by lia.
    replace (12 + 4 * ((n + 3) / 4) + 3) with (3 + (3 + (n + 3) / 4) * 4) by lia.
    rewrite Z.div_add by lia. change (3 / 4) with 0. lia. }
  pose proof (Z.div_mod (n + 3) 4 ltac:(lia)) as Hd.
  pose proof (Z.mod_pos_bound (n + 3) 4 ltac:(lia)) as Hm.
  split; [exact HL|]. split; [|split].
  - rewrite HS, HL, cmsgDataAlign_eq by lia.
    replace (12 + n + 3) with (n + 3 + 3 * 4) by lia.
    rewrite Z.div_add by lia. lia.
  - rewrite HS. replace (12 + 4 * ((n + 3) / 4)) with ((3 + (n + 3) / 4) * 4) by lia.
    apply Z.mod_mul. lia.
  - rewrite HS, HL. lia.
Qed.

Lemma cmsgLen_cmsgSpace_witness :
  0 <= 2 < 2 ^ 32
  /\ cmsgLen 2 = cmsgSize + 2
  /\ cmsgSpace 2 = cmsgDataAlign (cmsgLen 2)
  /\ cmsgSpace 2 mod 4 = 0
  /\ cmsgLen 2 <= cmsgSpace 2 < cmsgLen 2 + 4.
Proof.
  split; [lia | apply (cmsgLen_cmsgSpace 2); lia].
Defined.

(** ** The parser on well-formed input *)

Lemma derefCmsghdr_inv (m : list Z) (hdr : Cmsghdr) :
  derefCmsghdr m = Some hdr ->
  exists raw lv ty,
    load m 0 4 = Some raw /\ load m 4 4 = Some lv /\ load m 8 4 = Some ty
    /\ hdr = mkCmsghdr (uint32 raw) (int32 lv) (int32 ty)
    /\ (12 <= length m)%nat.
Proof.
  unfold derefCmsghdr.
  destruct (load m 0 4) as [raw|]; [|discriminate].
  destruct (load m 4 4) as [lv|]; [|discriminate].
  destruct (load m 8 4) as [ty|] eqn:H8; [|discriminate].
  intros H. injection H as <-. exists raw, lv, ty. repeat split.
  unfold load in H8. destruct (8 + 4 <=? length m)%nat eqn:Hl; [|discriminate].
  apply Nat.leb_le in Hl. lia.
Qed.

(** The result of the parser on a buffer that lies within its array and
    starts with a header whose length is within bounds. *)
Lemma ParseOne_success (b : slice Z) (hdr : Cmsghdr) :
  (len b <= cap b)%nat ->
  derefCmsghdr (mem b) = Some hdr ->
  12 <= Len hdr <= Z.of_nat (len b) ->
  ParseOneSocketControlMessage b
  = (12%nat,
     Ok (hdr,
         mkSlice (skipn 12 (mem b)) (Z.to_nat (Len hdr - 12)),
         if cmsgDataAlign (Len hdr) <? Z.of_nat (len b)
         then mkSlice (skipn (Z.to_nat (cmsgDataAlign (Len hdr))) (mem b))
                      (Z.to_nat (Z.of_nat (len b) - cmsgDataAlign (Len hdr)))
         else nilSlice)).
Proof.
  intros Hcap Hhdr HLen.
  destruct (derefCmsghdr_inv _ _ Hhdr) as (raw & lv & ty & Hraw & _ & _ & Heq & Hm).
  assert (HL : Len hdr = uint32 raw) by (subst hdr; reflexivity).
  pose proof (uint32_range raw) as Hr.
  unfold ParseOneSocketControlMessage, socketControlMessageHeaderAndData.
  destruct (index_ok b 0 ltac:(lia) Hcap) as (x & -> & _).
  rewrite Hraw. rewrite uintptr_small by lia.
  replace ((uint32 raw <? cmsgSize) || (Z.of_nat (len b) <? uint32 raw)) with false
    by (symmetry; apply orb_false_iff; unfold cmsgSize; split; apply Z.ltb_ge; lia).
  rewrite cmsgDataAlign_cmsgSize. unfold reslice at 1.
  replace ((0 <=? 12) && (12 <=? uint32 raw) && (uint32 raw <=? Z.of_nat (cap b))) with true
    by (symmetry; rewrite !andb_true_iff; repeat split; apply Z.leb_le; lia).
  rewrite Hhdr. rewrite HL.
  pose proof (nextRecord_offset (uint32 raw) ltac:(lia)) as Hoff.
  rewrite uintptr_small in * by lia.
  rewrite int_small in * by (pose proof (cmsgDataAlign_bounds (uint32 raw) ltac:(lia)); lia).
  change (Z.to_nat 12) with 12%nat.
  destruct (cmsgDataAlign (uint32 raw) <? Z.of_nat (len b)) eqn:Hi; [|reflexivity].
  apply Z.ltb_lt in Hi. unfold sliceFrom, reslice.
  rewrite (proj2 (Z.leb_le (cmsgDataAlign (uint32 raw)) (Z.of_nat (len b)))) by lia.
  rewrite (proj2 (Z.leb_le 0 (cmsgDataAlign (uint32 raw)))) by lia.
  rewrite (proj2 (Z.leb_le (Z.of_nat (len b)) (Z.of_nat (cap b)))) by lia.
  reflexivity.
Qed.

(** X8. On a buffer that lies within its array and starts with a header
    whose length field is at least the header size and at most the buffer
    length, the parser succeeds, reading the 12 header bytes only: the
    payload is bytes 12 up to the declared length of the buffer, and the
    remainder is the buffer from the declared length rounded up to a
    multiple of four (empty when that offset reaches the buffer's end).
    Neither holds a byte from outside the buffer. *)
Theorem ParseOne_accepts (b : slice Z) (hdr : Cmsghdr) :
  (len b <= cap b)%nat ->
  derefCmsghdr (mem b) = Some hdr ->
  12 <= Len hdr <= Z.of_nat (len b) ->
  exists body remainder,
    ParseOneSocketControlMessage b = (12%nat, Ok (hdr, body, remainder))
    /\ elems body = firstn (Z.to_nat (Len hdr - 12)) (skipn 12 (elems b))
    /\ elems remainder = skipn (Z.to_nat (cmsgDataAlign (Len hdr))) (elems b).
Proof.
  intros Hcap Hhdr HLen.
  rewrite (ParseOne_success b hdr Hcap Hhdr HLen).
  eexists _, _. split; [reflexivity|].
  destruct (derefCmsghdr_inv _ _ Hhdr) as (raw & lv & ty & _ & _ & _ & Heq & _).
  assert (Hr : 0 <= Len hdr < 2 ^ 32) by (subst hdr; apply uint32_range).
  pose proof (cmsgDataAlign_bounds (Len hdr) ltac:(lia)) as Hal.
  unfold elems, cap in *. cbn [mem len]. split.
  - rewrite skipn_firstn_comm, firstn_firstn. f_equal. lia.
  - destruct (cmsgDataAlign (Len hdr) <? Z.of_nat (len b)) eqn:Hi; cbn [mem len nilSlice].
    + apply Z.ltb_lt in Hi. rewrite skipn_firstn_comm. f_equal. lia.
    + apply Z.ltb_ge in Hi. cbn [firstn]. symmetry. apply skipn_all2.
      rewrite length_firstn. lia.
Qed.

Lemma ParseOne_accepts_witness :
  (len (sliceOf (segmentSizeRecord 1200 ++ tosRecord 2))
   <= cap (sliceOf (segmentSizeRecord 1200 ++ tosRecord 2)))%nat
  /\ derefCmsghdr (mem (sliceOf (segmentSizeRecord 1200 ++ tosRecord 2)))
     = Some (mkCmsghdr 14 17 2)
  /\ exists body remainder,
       ParseOneSocketControlMessage (sliceOf (segmentSizeRecord 1200 ++ tosRecord 2))
       = (12%nat, Ok (mkCmsghdr 14 17 2, body, remainder))
       /\ elems body = [176; 4]
       /\ elems remainder = tosRecord 2.
Proof.
  assert (H1 : (len (sliceOf (segmentSizeRecord 1200 ++ tosRecord 2))
                <= cap (sliceOf (segmentSizeRecord 1200 ++ tosRecord 2)))%nat)
    by (vm_compute; lia).
  assert (H2 : derefCmsghdr (mem (sliceOf (segmentSizeRecord 1200 ++ tosRecord 2)))
               = Some (mkCmsghdr 14 17 2)) by reflexivity.
  destruct (ParseOne_accepts (sliceOf (segmentSizeRecord 1200 ++ tosRecord 2))
              (mkCmsghdr 14 17 2) H1 H2)
    as (body & remainder & Hp & Hb & Hr); [vm_compute; split; discriminate|].
  split; [exact H1|]. split; [exact H2|].
  exists body, remainder. split; [exact Hp|]. split; [exact Hb | exact Hr].
Defined.

(** X9. On a buffer of at least four bytes that lies within its array, the
    parser neither panics nor dereferences a byte outside the buffer: it
    returns [EINVAL] or succeeds. *)
Theorem ParseOne_safe_from_four_bytes (b : slice Z) :
  (4 <= len b <= cap b)%nat ->
  (fst (ParseOneSocketControlMessage b) <= len b)%nat
  /\ (snd (ParseOneSocketControlMessage b) = Err EINVAL
      \/ exists hdr body remainder,
           snd (ParseOneSocketControlMessage b) = Ok (hdr, body, remainder)).
Proof.
  intros [H4 Hcap]. split; [apply ParseOne_footprint_inside; exact H4|].
  destruct (load (mem b) 0 4) as [raw|] eqn:Hraw.
  2:{ unfold load in Hraw. destruct (0 + 4 <=? length (mem b))%nat eqn:Hl; [discriminate|].
      apply Nat.leb_gt in Hl. unfold cap in Hcap. lia. }
  destruct (Z.ltb_spec (uint32 raw) cmsgSize) as [Hlo|Hlo].
  { left. eapply ParseOne_rejects_declared_length; [lia | exact Hraw | left; exact Hlo]. }
  destruct (Z.ltb_spec (Z.of_nat (len b)) (uint32 raw)) as [Hhi|Hhi].
  { left. eapply ParseOne_rejects_declared_length; [lia | exact Hraw | right; exact Hhi]. }
  right. unfold cmsgSize in Hlo.
  assert (H12 : (12 <= length (mem b))%nat) by (unfold cap in Hcap; lia).
  assert (Hhdr : exists hdr, derefCmsghdr (mem b) = Some hdr /\ Len hdr = uint32 raw).
  { unfold derefCmsghdr. rewrite Hraw. unfold load.
    replace (4 + 4 <=? length (mem b))%nat with true by (symmetry; apply Nat.leb_le; lia).
    replace (8 + 4 <=? length (mem b))%nat with true by (symmetry; apply Nat.leb_le; lia).
    eexists. split; reflexivity. }
  destruct Hhdr as (hdr & Hhdr & HL).
  rewrite (ParseOne_success b hdr Hcap Hhdr ltac:(lia)).
  eexists _, _, _. reflexivity.
Qed.

Lemma ParseOne_safe_from_four_bytes_witness :
  (4 <= len (oobPrefix shortPktinfoRecord 4) <= cap (oobPrefix shortPktinfoRecord 4))%nat
  /\ (fst (ParseOneSocketControlMessage (oobPrefix shortPktinfoRecord 4))
      <= len (oobPrefix shortPktinfoRecord 4))%nat.
Proof.
  assert (H : (4 <= len (oobPrefix shortPktinfoRecord 4)
               <= cap (oobPrefix shortPktinfoRecord 4))%nat) by (vm_compute; lia).
  split; [exact H|]. apply (ParseOne_safe_from_four_bytes _ H).
Defined.

(** ** Chains of records *)

(** A successful parse leaves a remainder at least a header shorter than
    the buffer. *)
Lemma ParseOne_remainder_len (b : slice Z) (hdr : Cmsghdr) (body remainder : slice Z) :
  snd (ParseOneSocketControlMessage b) = Ok (hdr, body, remainder) ->
  (len remainder + 12 <= len b)%nat.
Proof.
  unfold ParseOneSocketControlMessage, socketControlMessageHeaderAndData.
  destruct (index b 0) as [b0| |]; cbn [snd]; try discriminate.
  destruct (load (mem b) 0 4) as [raw|] eqn:Hraw; cbn [snd]; try discriminate.
  destruct ((uintptr (uint32 raw) <? cmsgSize) || (Z.of_nat (len b) <? uint32 raw)) eqn:Hchk;
    cbn [snd]; try discriminate.
  apply orb_false_iff in Hchk. destruct Hchk as [Hlo Hhi].
  apply Z.ltb_ge in Hlo, Hhi.
  pose proof (uint32_range raw) as Hr.
  rewrite uintptr_small in Hlo by lia. unfold cmsgSize in Hlo.
  destruct (reslice b (cmsgDataAlign cmsgSize) (uint32 raw)); cbn [snd]; try discriminate.
  unfold derefCmsghdr. rewrite Hraw.
  destruct (load (mem b) 4 4) as [lv|]; cbn [snd]; try discriminate.
  destruct (load (mem b) 8 4) as [ty|]; cbn [snd]; try discriminate.
  cbn [Len].
  pose proof (nextRecord_offset (uint32 raw) ltac:(lia)) as Hoff.
  set (i := int (cmsgDataAlign (uintptr (uint32 raw)))) in *.
  destruct (i <? Z.of_nat (len b)) eqn:Hi.
  - unfold sliceFrom, reslice.
    destruct (i <=? Z.of_nat (len b)); cbn [snd]; try discriminate.
    match goal with
    | |- context [if ?c then _ else _] => destruct c; cbn [snd]; try discriminate
    end.
    intros H. injection H as _ _ <-. cbn [len]. apply Z.ltb_lt in Hi. lia.
  - cbn [snd]. intros H. injection H as _ _ <-. cbn [len nilSlice]. lia.
Qed.

(** X10. Every record the parser yields takes at least the 12 header bytes
    of the buffer: a chain of control messages in a buffer of [n] bytes has
    at most [n / 12] records, which bounds the iterations of the
    control-message loop of [ReadPacket]. *)
Theorem chain_length_bound (dat : slice Z) (rs : list (Cmsghdr * slice Z))
  (fin : outcome unit) :
  chainOf dat rs fin -> (12 * length rs <= len dat)%nat.
Proof.
  induction 1 as [| | |dat hdr body remainder rs fin H0 HP Hch IH]; cbn [length]; try lia.
  apply ParseOne_remainder_len in HP. lia.
Qed.

Lemma load_app (r m : list Z) (off width : nat) (v : Z) :
  load r off width = Some v -> load (r ++ m) off width = Some v.
Proof.
  unfold load.
  destruct (off + width <=? length r)%nat eqn:Hl; [|discriminate].
  apply Nat.leb_le in Hl. intros H. injection H as <-.
  replace (off + width <=? length (r ++ m))%nat with true
    by (symmetry; apply Nat.leb_le; rewrite length_app; lia).
  f_equal. f_equal.
  rewrite skipn_app, firstn_app.
  replace (width - length (skipn off r))%nat with 0%nat by (rewrite length_skipn; lia).
  cbn [firstn]. rewrite app_nil_r. reflexivity.
Qed.

Lemma derefCmsghdr_app (r m : list Z) (hdr : Cmsghdr) :
  derefCmsghdr r = Some hdr -> derefCmsghdr (r ++ m) = Some hdr.
Proof.
  intros H. destruct (derefCmsghdr_inv _ _ H) as (raw & lv & ty & H0 & H4 & H8 & -> & _).
  unfold derefCmsghdr.
  rewrite (load_app _ m _ _ _ H0), (load_app _ m _ _ _ H4), (load_app _ m _ _ _ H8).
  reflexivity.
Qed.

(** X11. A buffer that is the concatenation of records, each starting with
    its header and as long as its declared length rounded up to a multiple
    of four, is a chain of exactly these records: the parser yields their
    headers in the order of construction, each with bytes 12 up to the
    declared length of its record as payload, and the chain ends without
    error. *)
Theorem chain_of_padded_records (recs : list (list Z)) (hdrs : list Cmsghdr) :
  Forall2 paddedRecord recs hdrs ->
  exists rs,
    chainOf (sliceOf (concat recs)) rs (Ok tt)
    /\ map fst rs = hdrs
    /\ Forall2 (fun r x =>
                  elems (snd x) = firstn (Z.to_nat (Len (fst x) - 12)) (skipn 12 r))
               recs rs.
Proof.
  induction 1 as [|r hdr recs hdrs (Hhdr & H12 & Hlen) Hrest IH].
  - exists []. repeat split; constructor. reflexivity.
  - destruct IH as (rs & Hch & Hmap & Hbodies).
    destruct (derefCmsghdr_inv _ _ Hhdr) as (raw & lv & ty & _ & _ & _ & Heq & Hm).
    assert (Hr : 0 <= Len hdr < 2 ^ 32) by (subst hdr; apply uint32_range).
    pose proof (cmsgDataAlign_bounds (Len hdr) ltac:(lia)) as Hal.
    cbn [concat]. set (rest := concat recs) in *.
    assert (HP : ParseOneSocketControlMessage (sliceOf (r ++ rest))
                 = (12%nat,
                    Ok (hdr,
                        mkSlice (skipn 12 (r ++ rest)) (Z.to_nat (Len hdr - 12)),
                        sliceOf rest))).
    { rewrite (ParseOne_success (sliceOf (r ++ rest)) hdr).
      - cbn [sliceOf mem len]. rewrite length_app, Nat2Z.inj_add, <- Hlen.
        repeat f_equal.
        destruct (Z.ltb_spec (Z.of_nat (length r)) (Z.of_nat (length r) + Z.of_nat (length rest)))
          as [Hlt|Hge].
        + unfold sliceOf. f_equal.
          * rewrite Nat2Z.id, skipn_app, skipn_all, Nat.sub_diag. reflexivity.
          * lia.
        + assert (Hnil : rest = []) by (apply length_zero_iff_nil; lia).
          rewrite Hnil. reflexivity.
      - unfold cap, sliceOf. cbn [mem len]. lia.
      - cbn [sliceOf mem]. apply derefCmsghdr_app. exact Hhdr.
      - cbn [sliceOf len]. rewrite length_app. lia. }
    eexists ((hdr, _) :: rs). split; [|split].
    + eapply chain_record; [| rewrite HP; reflexivity | exact Hch].
      cbn [sliceOf len]. rewrite length_app. lia.
    + cbn [map fst]. f_equal. exact Hmap.
    + constructor; [|exact Hbodies].
      unfold elems. cbn [fst snd mem len].
      rewrite skipn_app, firstn_app.
      replace (Z.to_nat (Len hdr - 12) - length (skipn 12 r))%nat with 0%nat
        by (rewrite length_skipn; lia).
      replace (12 - length r)%nat with 0%nat by lia.
      cbn [skipn firstn]. rewrite app_nil_r. reflexivity.
Qed.

Lemma chain_of_padded_records_witness :
  Forall2 paddedRecord [segmentSizeRecord 1200; tosRecord 2]
          [mkCmsghdr 14 17 2; mkCmsghdr 16 0 3]
  /\ exists rs,
       chainOf (sliceOf (concat [segmentSizeRecord 1200; tosRecord 2])) rs (Ok tt)
       /\ map fst rs = [mkCmsghdr 14 17 2; mkCmsghdr 16 0 3].
Proof.
  assert (H : Forall2 paddedRecord [segmentSizeRecord 1200; tosRecord 2]
                      [mkCmsghdr 14 17 2; mkCmsghdr 16 0 3]).
  { repeat constructor; vm_compute; try reflexivity; discriminate. }
  split; [exact H|].
  destruct (chain_of_padded_records _ _ H) as (rs & Hch & Hmap & _).
  exists rs. split; [exact Hch | exact Hmap].
Defined.

Lemma chain_length_bound_witness :
  exists rs,
    chainOf (sliceOf (concat [segmentSizeRecord 1200; tosRecord 2])) rs (Ok tt)
    /\ (12 * length rs <= len (sliceOf (concat [segmentSizeRecord 1200; tosRecord 2])))%nat.
Proof.
  eexists. split.
  - eapply chain_record; [discriminate | reflexivity |].
    eapply chain_record; [discriminate | reflexivity |].
    apply chain_end. reflexivity.
  - eapply chain_length_bound.
    eapply chain_record; [discriminate | reflexivity |].
    eapply chain_record; [discriminate | reflexivity |].
    apply chain_end. reflexivity.
Defined.

(** ** What the control-message loop decodes *)

(** X12. For an ECN record, (IPPROTO_IP, IP_TOS) or (IPPROTO_IPV6,
    IPV6_RECVTCLASS), with a first payload byte [b0], the loop body sets the
    packet's ECN value to [ParseECNHeaderBits] of the low two bits of [b0]
    (the other six bits of the byte play no part) and changes nothing else
    of the packet and nothing of the process state. *)
Theorem ecn_from_low_two_bits {P : Protocol} (hdr : Cmsghdr) (body : slice Z) (b0 : Z)
  (p : receivedPacket) (g : globals) :
  isECNRecord hdr = true ->
  index body 0 = Ok b0 ->
  handleCmsg hdr body p g = (g, Ok (set_ecn p (ParseECNHeaderBits (b0 mod 4)))).
Proof.
  intros Hecn Hidx.
  assert (Hland : Z.land b0 ecnMask = b0 mod 4).
  { change ecnMask with (Z.ones 2). rewrite Z.land_ones by lia. reflexivity. }
  unfold handleCmsg. unfold isECNRecord in Hecn. case_hdr hdr; try discriminate;
    rewrite ?Hidx, ?Hland; reflexivity.
Qed.

Lemma ecn_from_low_two_bits_witness :
  isECNRecord (mkCmsghdr 13 0 3) = true
  /\ index (mkSlice [186; 0; 0; 0] 1) 0 = Ok 186
  /\ handleCmsg (P := exampleProtocol) (mkCmsghdr 13 0 3) (mkSlice [186; 0; 0; 0] 1)
                zeroPacket initGlobals
     = (initGlobals, Ok (set_ecn zeroPacket protocol.ECT0)).
Proof.
  split; [reflexivity|]. split; [reflexivity|].
  apply (ecn_from_low_two_bits (P := exampleProtocol) (mkCmsghdr 13 0 3)
           (mkSlice [186; 0; 0; 0] 1) 186 zeroPacket initGlobals); reflexivity.
Defined.

(** X13. For an IPv6 packet-info record with a 20-byte payload, the loop
    body sets the packet's info to the address in payload bytes 0-15, an
    IPv4-mapped address turned into its IPv4 address, and the interface
    index in payload bytes 16-19, little-endian; nothing else of the packet
    and nothing of the process state changes. *)
Theorem ipv6_pktinfo_decoded {P : Protocol} (hdr : Cmsghdr) (body : slice Z)
  (a16 idx : list Z) (p : receivedPacket) (g : globals) :
  isPktInfoV6 hdr = true ->
  len body = 20%nat ->
  elems body = a16 ++ idx ->
  length a16 = 16%nat ->
  length idx = 4%nat ->
  handleCmsg hdr body p g
  = (g, Ok (set_info p (mkPacketInfo (Unmap (AddrFrom16 a16)) (le_decode idx)))).
Proof.
  intros Hv6 Hlen Helems H16 H4.
  assert (Ha : firstn 16 (elems body) = a16).
  { rewrite Helems, firstn_app, <- H16, firstn_all, Nat.sub_diag. cbn [firstn].
    apply app_nil_r. }
  assert (Hi : firstn 4 (skipn 16 (elems body)) = idx).
  { rewrite Helems, skipn_app, <- H16, skipn_all, Nat.sub_diag. cbn [skipn app].
    rewrite <- H4. apply firstn_all. }
  unfold handleCmsg. unfold isPktInfoV6 in Hv6. case_hdr hdr; try discriminate;
    rewrite Hlen, Ha, Hi; reflexivity.
Qed.

Lemma ipv6_pktinfo_decoded_witness :
  isPktInfoV6 (mkCmsghdr 32 41 19) = true
  /\ handleCmsg (P := exampleProtocol) (mkCmsghdr 32 41 19)
       (sliceOf ([0; 0; 0; 0; 0; 0; 0; 0; 0; 0; 255; 255; 192; 168; 1; 2] ++ [7; 0; 0; 0]))
       zeroPacket initGlobals
     = (initGlobals,
        Ok (set_info zeroPacket (mkPacketInfo (addr4 [192; 168; 1; 2]) 7))).
Proof.
  split; [reflexivity|].
  apply (ipv6_pktinfo_decoded (P := exampleProtocol) (mkCmsghdr 32 41 19)
           (sliceOf ([0; 0; 0; 0; 0; 0; 0; 0; 0; 0; 255; 255; 192; 168; 1; 2] ++ [7; 0; 0; 0]))
           [0; 0; 0; 0; 0; 0; 0; 0; 0; 0; 255; 255; 192; 168; 1; 2] [7; 0; 0; 0]
           zeroPacket initGlobals); reflexivity.
Defined.

(** ** What [ReadPacket] keeps *)

Lemma refillSlot_cap {P : Protocol} (i : Z) (c : oobConn) (g : globals) :
  cap_ (fst (fst (refillSlot i c g))) = cap_ c.
Proof.
  unfold refillSlot. destruct (getPacketBuffer g) as [buf g1].
  destruct (sliceTo (Data buf) (Z.of_nat MaxPacketBufferSize)); try reflexivity.
  destruct (i <? Z.of_nat (length (buffers c))); try reflexivity.
  match goal with |- context [index ?b ?j] => destruct (index b j) as [m| |] end;
    try reflexivity.
  destruct (Buffers m); reflexivity.
Qed.

Lemma refillLoop_cap {P : Protocol} (todo : nat) (i : Z) (c : oobConn) (g : globals) :
  cap_ (fst (fst (refillLoop todo i c g))) = cap_ c.
Proof.
  revert i c g. induction todo as [|todo IH]; intros i c g; cbn [refillLoop]; [reflexivity|].
  pose proof (refillSlot_cap i c g) as Hc.
  destruct (refillSlot i c g) as [[c1 g1] [u| |]]; cbn [fst] in *; try exact Hc.
  rewrite IH. exact Hc.
Qed.

Lemma readNextBatch_cap {P : Protocol} (e : recvEnv) (c : oobConn) (g : globals) :
  cap_ (fst (fst (readNextBatch e c g))) = cap_ c.
Proof.
  unfold readNextBatch.
  destruct (sliceTo (messages c) batchSize) as [ms| |]; try reflexivity.
  match goal with |- context [refillLoop ?t ?i ?c' g] =>
    pose proof (refillLoop_cap t i c' g) as Hl;
    destruct (refillLoop t i c' g) as [[c1 g1] [u| |]] end;
    cbn [fst snd set_conn cap_] in *; try exact Hl.
  destruct ((rbN e =? 0) || negb (isNil (rbErr e))).
  - destruct (rbErr e); exact Hl.
  - match goal with |- context [sliceTo ?b ?n] => destruct (sliceTo b n) end; exact Hl.
Qed.

Lemma takeSlot_cap {P : Protocol} (e : recvEnv) (c : oobConn) :
  cap_ (fst (takeSlot e c)) = cap_ c.
Proof.
  unfold takeSlot.
  destruct (index (messages c) (readPos c)) as [msg| |]; try reflexivity.
  destruct (nth_error (buffers c) (Z.to_nat (readPos c))); try reflexivity.
  destruct (sliceTo (OOB msg) (NN msg)); try reflexivity.
  destruct (Buffers msg) as [|b0 rest]; try reflexivity.
  destruct (sliceTo b0 (N_ msg)); reflexivity.
Qed.

Lemma ReadPacket_cap {P : Protocol} (e : recvEnv) (c : oobConn) (g : globals) :
  cap_ (fst (fst (ReadPacket e c g))) = cap_ c.
Proof.
  destruct (ReadPacket_conn e c g) as [-> _].
  unfold nextSlot.
  destruct (Z.of_nat (len (messages c)) =? readPos c).
  - pose proof (readNextBatch_cap e c g) as Hc.
    destruct (readNextBatch e c g) as [[c1 g1] [[p|]| |]]; cbn [fst] in *; try exact Hc.
    pose proof (takeSlot_cap e c1) as Ht.
    destruct (takeSlot e c1) as [c2 [slot| |]]; cbn [fst] in *; congruence.
  - pose proof (takeSlot_cap e c) as Ht.
    destruct (takeSlot e c) as [c2 [slot| |]]; cbn [fst] in *; exact Ht.
Qed.

(** X14. [ReadPacket] never changes the capabilities of the connection: over
    any sequence of calls, whatever the operating system answers,
    [capabilities] returns at the exit of each call what it returned before
    the first. *)
Theorem capabilities_stable {P : Protocol} (es : list recvEnv) :
  forall (c : oobConn) (g : globals),
  Forall (fun r => capabilities (entryConn r) = capabilities c
                   /\ capabilities (exitConn r) = capabilities c)
         (readPackets es c g).
Proof.
  induction es as [|e es IH]; intros c g; cbn [readPackets]; [constructor|].
  pose proof (ReadPacket_cap e c g) as Hc.
  destruct (ReadPacket e c g) as [[c1 g1] r]. cbn [fst] in Hc.
  constructor.
  - cbn [entryConn exitConn]. unfold capabilities. auto.
  - eapply Forall_impl; [|apply IH].
    unfold capabilities. intros r' [Hin Hout]. rewrite Hin, Hout, Hc. auto.
Qed.

(** ** Buffers drawn from the pool *)

Lemma refillLoop_pool {P : Protocol} (todo : nat) :
  forall (i : Z) (c c' : oobConn) (g g' : globals),
  refillLoop todo i c g = (c', g', Ok tt) ->
  poolOut g' = (poolOut g + todo)%nat.
Proof.
  induction todo as [|todo IH]; intros i c c' g g'; cbn [refillLoop].
  - intros H. injection H as _ <-. lia.
  - pose proof (refillSlot_globals i c g) as Hg.
    destruct (refillSlot i c g) as [[c1 g1] [u| |]]; cbn [fst snd] in Hg; try discriminate.
    intros H. apply IH in H. rewrite H, Hg. unfold getPacketBuffer. cbn [snd poolOut]. lia.
Qed.

Lemma handleCmsg_pool {P : Protocol} (hdr : Cmsghdr) (body : slice Z)
  (p : receivedPacket) (g : globals) :
  poolOut (fst (handleCmsg hdr body p g)) = poolOut g.
Proof.
  destruct (handleCmsg_globals hdr body p g) as [-> | [-> | ->]]; [reflexivity| |].
  - unfold invalidCmsgOnceV4_Do. destruct (invalidCmsgOnceV4 g); reflexivity.
  - unfold invalidCmsgOnceV6_Do. destruct (invalidCmsgOnceV6 g); reflexivity.
Qed.

Lemma cmsgLoopFuel_pool {P : Protocol} (fuel : nat) (dat : slice Z)
  (p : receivedPacket) (g : globals) :
  poolOut (fst (cmsgLoopFuel fuel dat p g)) = poolOut g.
Proof.
  revert dat p g. induction fuel as [|fuel IH]; intros dat p g; cbn [cmsgLoopFuel];
    destruct (len dat =? 0)%nat; try reflexivity.
  destruct (snd (ParseOneSocketControlMessage dat)) as [[[hdr body] remainder]| |];
    try reflexivity.
  pose proof (handleCmsg_pool hdr body p g) as Hh.
  destruct (handleCmsg hdr body p g) as [g' [p'| |]]; cbn [fst] in *; try exact Hh.
  rewrite IH. exact Hh.
Qed.

Lemma readNextBatch_pool {P : Protocol} (e : recvEnv) (c : oobConn) (g : globals) :
  shapeInv c ->
  0 <= readPos c <= batchSize ->
  poolOut (snd (fst (readNextBatch e c g))) = (poolOut g + Z.to_nat (readPos c))%nat.
Proof.
  intros Hshape Hrp. pose proof Hshape as (Hcap & Hlen & Hbufs & Hall).
  unfold readNextBatch. rewrite sliceTo_batchSize by exact Hcap.
  set (c0 := set_conn c (readPos c) (mkSlice (mem (messages c)) (Z.to_nat batchSize))
                      (buffers c)).
  assert (Hshape0 : shapeInv c0).
  { unfold shapeInv, c0, set_conn, cap in *. cbn [messages buffers mem len].
    repeat split; try assumption. lia. }
  destruct (refillLoop_ok (Z.to_nat (readPos c0)) 0 c0 g Hshape0)
    as (c1 & g1 & Hloop & _);
    [lia | unfold c0, set_conn; cbn [readPos]; lia | reflexivity |].
  rewrite Hloop. apply refillLoop_pool in Hloop.
  change (readPos c0) with (readPos c) in Hloop.
  destruct ((rbN e =? 0) || negb (isNil (rbErr e))).
  - destruct (rbErr e); exact Hloop.
  - match goal with |- context [sliceTo ?b ?n] => destruct (sliceTo b n) end; exact Hloop.
Qed.

(** X15. On a well-formed connection, a [ReadPacket] call that finds the
    batch exhausted draws exactly [readPos] buffers from the pool, one for
    each slot consumed since the last refill, and it does so whether the
    receive call then succeeds or fails; a call that finds messages left
    draws none. *)
Theorem pool_accounting {P : Protocol} (e : recvEnv) (c : oobConn) (g : globals) :
  wfConn c ->
  poolOut (snd (fst (ReadPacket e c g)))
  = if Z.of_nat (len (messages c)) =? readPos c
    then (poolOut g + Z.to_nat (readPos c))%nat
    else poolOut g.
Proof.
  intros [Hcur Hshape]. unfold cursorInv in Hcur.
  pose proof Hshape as (Hcap & Hlen & _ & _).
  assert (Hbs : 0 <= batchSize) by (unfold batchSize; lia).
  assert (Hn : poolOut (snd (fst (nextSlot e c g)))
               = if Z.of_nat (len (messages c)) =? readPos c
                 then (poolOut g + Z.to_nat (readPos c))%nat
                 else poolOut g).
  { unfold nextSlot.
    destruct (Z.of_nat (len (messages c)) =? readPos c).
    - pose proof (readNextBatch_pool e c g Hshape ltac:(unfold cap in *; lia)) as Hp.
      destruct (readNextBatch e c g) as [[c1 g1] [[p|]| |]]; cbn [fst snd] in *; try exact Hp.
      destruct (takeSlot e c1) as [c2 [slot| |]]; exact Hp.
    - destruct (takeSlot e c) as [c2 [slot| |]]; reflexivity. }
  rewrite <- Hn. unfold ReadPacket.
  destruct (nextSlot e c g) as [[c1 g1] [[p|[dat p]]| |]]; cbn [fst snd]; try reflexivity.
  unfold cmsgLoop.
  pose proof (cmsgLoopFuel_pool (len dat) dat p g1) as Hc.
  destruct (cmsgLoopFuel (len dat) dat p g1) as [g2 r]. exact Hc.
Qed.

Lemma pool_accounting_witness :
  wfConn freshConn
  /\ poolOut (snd (fst (ReadPacket (P := exampleProtocol) timedOut freshConn initGlobals)))
     = 1%nat.
Proof.
  split; [apply wfConn_initConn|].
  apply (pool_accounting (P := exampleProtocol) timedOut freshConn initGlobals
           (wfConn_initConn _ _)).
Defined.

(** ** Construction *)

(** X16. [newConn] succeeds exactly when [SyscallConn] and [Control] return
    no error, the local address is not a nil UDP address pointer, reading
    of the ECN bits could be activated for IPv4 or for IPv6, and, when the
    local address is an unspecified UDP address, packet info could be
    activated for IPv4 or for IPv6.  For any other local address the
    packet-info errors play no part. *)
Theorem newConn_succeeds_iff (e : connEnv) (supportsDF : bool) :
  (exists c, newConn e supportsDF = Ok c)
  <-> syscallConnErr e = None
      /\ localAddr e <> udpAddr None
      /\ controlErr e = None
      /\ (errECNIPv4 e = None \/ errECNIPv6 e = None)
      /\ (forall a, localAddr e = udpAddr (Some a) -> IsUnspecified (IP a) = true ->
          errPIIPv4 e = None \/ errPIIPv6 e = None).
Proof.
  unfold newConn. split.
  - intros [c H].
    destruct (syscallConnErr e); [discriminate|].
    destruct (localAddr e) as [|[a|]|net] eqn:Hla; try discriminate;
      (destruct (controlErr e); [discriminate|]);
      destruct (errECNIPv4 e), (errECNIPv6 e); cbn [isNil negb andb] in H;
      try discriminate;
      repeat split; auto; try discriminate; try (intros a' Ha'; discriminate Ha');
      intros a' Ha' Hu; injection Ha' as <-; rewrite Hu in H;
      destruct (errPIIPv4 e), (errPIIPv6 e); cbn [isNil negb andb] in H;
      try discriminate; auto.
  - intros (Hs & Hla & Hc & Hecn & Hpi). rewrite Hs, Hc.
    assert (Hecn' : negb (isNil (errECNIPv4 e)) && negb (isNil (errECNIPv6 e)) = false).
    { destruct Hecn as [-> | ->]; [reflexivity | apply andb_false_r]. }
    destruct (localAddr e) as [|[a|]|net] eqn:Ha; try contradiction;
      rewrite Hecn'; cbn [andb]; try (eexists; reflexivity).
    destruct (IsUnspecified (IP a)) eqn:Hu; cbn [andb]; [|eexists; reflexivity].
    destruct (Hpi a eq_refl Hu) as [-> | ->]; cbn [isNil negb andb];
      [|rewrite andb_false_r]; eexists; reflexivity.
Qed.

(** X17. The connection [newConn] returns is well formed with its cursor at
    the end of its batch, so that the first [ReadPacket] issues a receive
    call.  Its capabilities are the DF flag it was given, ECN always, and
    GSO exactly when a probe socket could be opened (IPv6, or else IPv4)
    and [UDP_SEND_MSG_SIZE] could be set on it. *)
Theorem newConn_connection (e : connEnv) (supportsDF : bool) (c : oobConn) :
  newConn e supportsDF = Ok c ->
  wfConn c
  /\ readPos c = Z.of_nat (len (messages c))
  /\ DF (capabilities c) = supportsDF
  /\ ECN (capabilities c) = true
  /\ (GSO (capabilities c) = true
      <-> (socket6Err e = None \/ socket4Err e = None) /\ setsockoptErr e = None).
Proof.
  intros H. apply newConn_ok in H. subst c.
  split; [apply wfConn_initConn|]. split; [reflexivity|].
  split; [reflexivity|]. split; [reflexivity|].
  cbn [capabilities cap_ initConn GSO]. unfold isGSOEnabled, getMaxGSOSegments.
  destruct (socket6Err e), (socket4Err e), (setsockoptErr e); cbn;
    split; intros H; try discriminate; try reflexivity;
    try (split; [auto|reflexivity]);
    destruct H as [[H|H] H']; discriminate.
Qed.

Lemma newConn_connection_witness :
  newConn exampleConnEnv true = Ok (initConn true true)
  /\ wfConn (initConn true true)
  /\ capabilities (initConn true true) = mkCaps true true true.
Proof.
  assert (H : newConn exampleConnEnv true = Ok (initConn true true)) by reflexivity.
  destruct (newConn_connection exampleConnEnv true (initConn true true) H) as (Hwf & _).
  split; [exact H|]. split; [exact Hwf | reflexivity].
Defined.

(** ** Delivery of a received datagram *)

Lemma length_overwrite (m bs : list Z) : length (overwrite m bs) = length m.
Proof.
  unfold overwrite. rewrite length_firstn, length_app, length_skipn. lia.
Qed.

Lemma firstn_overwrite (m bs : list Z) :
  (length bs <= length m)%nat -> firstn (length bs) (overwrite m bs) = bs.
Proof.
  intros H. unfold overwrite. rewrite firstn_firstn.
  replace (Init.Nat.min (length bs) (length m)) with (length bs) by lia.
  rewrite firstn_app, Nat.sub_diag, firstn_all. cbn [firstn]. apply app_nil_r.
Qed.

Lemma sliceTo_within (b : slice Z) (n : nat) :
  (n <= cap b)%nat -> sliceTo b (Z.of_nat n) = Ok (mkSlice (mem b) n).
Proof.
  intros H. unfold sliceTo, reslice.
  replace ((0 <=? 0) && (0 <=? Z.of_nat n) && (Z.of_nat n <=? Z.of_nat (cap b))) with true
    by (symmetry; rewrite !andb_true_iff; repeat split; apply Z.leb_le; lia).
  cbn [Z.to_nat skipn]. rewrite Z.sub_0_r, Nat2Z.id. reflexivity.
Qed.

(** X18. A [ReadPacket] call on a well-formed connection whose one-slot
    batch is exhausted, answered by a receive call that delivers one
    datagram fitting the buffers, takes that datagram: the ancillary data
    handed to the control-message loop are the bytes the operating system
    wrote, and the packet carries the sender's address, the time of the
    call, the payload bytes, and the buffer just drawn from the pool.  The
    cursor is 1 afterwards, at the end of the one-message batch, so that the
    next call refills again.  With no ancillary data the packet is returned
    as it is, without ECN value and without packet info. *)
Theorem datagram_delivered {P : Protocol} (e : recvEnv) (c : oobConn) (g : globals)
  (d : datagram) (ds : list datagram) :
  wfConn c ->
  readPos c = 1 ->
  len (messages c) = 1%nat ->
  rbSlots e = d :: ds ->
  rbN e = 1 ->
  rbErr e = None ->
  dN d = Z.of_nat (length (dPayload d)) ->
  (length (dPayload d) <= MaxPacketBufferSize)%nat ->
  dNN d = Z.of_nat (length (dOOB d)) ->
  Forall (fun m => (length (dOOB d) <= cap (OOB m))%nat) (mem (messages c)) ->
  exists c' g1 dat p0,
    nextSlot e c g = (c', g1, Ok (inr (dat, p0)))
    /\ elems dat = dOOB d
    /\ remoteAddr p0 = dAddr d
    /\ rcvTime p0 = now e
    /\ elems (data p0) = dPayload d
    /\ (exists buf, buffer p0 = Some buf /\ bufId buf = poolOut g)
    /\ ecn p0 = protocol.ECNUnsupported
    /\ info p0 = mkPacketInfo zeroAddr 0
    /\ readPos c' = 1
    /\ len (messages c') = 1%nat
    /\ ReadPacket e c g = (let '(g', r) := cmsgLoop dat p0 g1 in (c', g', r))
    /\ (dOOB d = [] -> ReadPacket e c g = (c', g1, Ok p0)).
Proof.
  intros [_ (Hcap & _ & Hbufs & Hall)] Hrp Hlen Hslots Hn Herr HN HNmax HNN Hoob.
  destruct c as [rp [msmem mslen] bufs caps].
  unfold cap in *. cbn [readPos messages buffers mem len] in *. subst rp mslen.
  change (Z.to_nat batchSize) with 1%nat in *.
  destruct msmem as [|m [|m' msmem]]; try discriminate Hcap.
  destruct bufs as [|b0 [|b1 bufs]]; try discriminate Hbufs.
  inversion Hall as [|? ? Hm _]; subst.
  inversion Hoob as [|? ? Hom _]; subst.
  destruct (Buffers m) as [|pb rest] eqn:HB; [contradiction|].
  assert (Hns : nextSlot e (mkOobConn 1 (mkSlice [m] 1) [b0] caps) g
    = (mkOobConn 1
         (mkSlice [mkMessage
                     (overwriteSlice (mkSlice (repeat 0 MaxPacketBufferSize)
                                              MaxPacketBufferSize) (dPayload d) :: rest)
                     (overwriteSlice (OOB m) (dOOB d)) (dAddr d) (dN d) (dNN d)] 1)
         [Some (mkPacketBuffer (poolOut g)
                  (mkSlice (repeat 0 MaxPacketBufferSize) MaxPacketBufferSize))]
         caps,
       emit ReadBatchCall (snd (getPacketBuffer g)),
       Ok (inr (mkSlice (overwrite (mem (OOB m)) (dOOB d)) (length (dOOB d)),
                mkReceivedPacket (dAddr d) (now e)
                  (mkSlice (overwrite (repeat 0 MaxPacketBufferSize) (dPayload d))
                           (length (dPayload d)))
                  (Some (mkPacketBuffer (poolOut g)
                           (mkSlice (repeat 0 MaxPacketBufferSize) MaxPacketBufferSize)))
                  protocol.ECNUnsupported (mkPacketInfo zeroAddr 0))))).
  { assert (Hw : forall l, writeDatagrams l (@nil Message) = [])
      by (intros [|? ?]; reflexivity).
    unfold nextSlot, readNextBatch.
    cbn [messages len readPos].
    change (Z.of_nat 1 =? 1) with true. cbv iota.
    rewrite sliceTo_batchSize by reflexivity.
    change (Z.to_nat batchSize) with 1%nat. cbn [mem set_conn readPos messages buffers cap_].
    change (Z.to_nat 1) with 1%nat. cbn [refillLoop].
    unfold refillSlot, getPacketBuffer. cbn [Data bufId].
    rewrite sliceTo_fresh.
    cbn [buffers length set_conn messages readPos cap_].
    change (0 <? Z.of_nat 1) with true. cbv iota.
    unfold index at 1. cbn [len mem].
    change ((0 <=? 0) && (0 <? Z.of_nat 1)) with true. cbv iota.
    change (Z.to_nat 0) with 0%nat. cbn [nth_error assign].
    rewrite HB.
    cbn [set_conn messages readPos buffers cap_ mem len assign Data bufId].
    unfold ReadBatch_effect. cbn [len mem firstn skipn app].
    rewrite Hslots. cbn [writeDatagrams]. rewrite Hw. cbn [app].
    unfold writeDatagram. cbn [Buffers OOB Addr N_ NN].
    rewrite Hn, Herr. change ((1 =? 0) || negb (isNil None)) with false. cbv iota.
    match goal with
    | |- context [sliceTo ?b 1] => change (sliceTo b 1) with (Ok (mkSlice (mem b) 1))
    end.
    cbn [set_conn readPos messages buffers cap_ mem].
    unfold takeSlot. unfold set_conn.
    cbn [messages readPos buffers cap_].
    match goal with
    | |- context [index (mkSlice [?x] 1) 0] =>
        change (index (mkSlice [x] 1) 0) with (Ok x)
    end.
    cbv iota. cbn [OOB NN Buffers N_ Addr].
    change (Z.to_nat 0) with 0%nat. cbn [nth_error].
    rewrite HNN, HN.
    rewrite sliceTo_within
      by (unfold cap, overwriteSlice; cbn [mem]; rewrite length_overwrite; exact Hom).
    rewrite sliceTo_within
      by (unfold cap, overwriteSlice; cbn [mem];
          rewrite length_overwrite, repeat_length; exact HNmax).
    change (uint8 (0 + 1)) with 1.
    reflexivity. }
  eexists _, _, _, _. split; [exact Hns|].
  cbn [remoteAddr rcvTime data buffer ecn info readPos elems mem len].
  split; [apply firstn_overwrite; exact Hom|].
  split; [reflexivity|]. split; [reflexivity|].
  split; [apply firstn_overwrite; rewrite repeat_length; exact HNmax|].
  split; [eexists; split; reflexivity|].
  split; [reflexivity|]. split; [reflexivity|]. split; [reflexivity|].
  split; [reflexivity|].
  split.
  - unfold ReadPacket. rewrite Hns. reflexivity.
  - intros Hnil. unfold ReadPacket. rewrite Hns, Hnil. reflexivity.
Qed.

Lemma datagram_delivered_witness :
  wfConn freshConn
  /\ exists c' g1 p0,
       ReadPacket (P := exampleProtocol) (received []) freshConn initGlobals
       = (c', g1, Ok p0)
       /\ remoteAddr p0 = peer
       /\ elems (data p0) = [1; 2; 3]
       /\ ecn p0 = protocol.ECNUnsupported
       /\ readPos c' = 1.
Proof.
  split; [apply wfConn_initConn|].
  destruct (datagram_delivered (P := exampleProtocol) (received []) freshConn initGlobals
              (mkDatagram [1; 2; 3] 3 [] 0 peer) [] (wfConn_initConn _ _))
    as (c' & g1 & dat & p0 & _ & _ & Ha & _ & Hd & _ & He & _ & Hrp & _ & _ & Hret);
    try reflexivity.
  - cbn. lia.
  - apply Forall_cons; [cbn; lia | apply Forall_nil].
  - exists c', g1, p0. split; [apply Hret; reflexivity|].
    split; [exact Ha|]. split; [exact Hd|]. split; [exact He | exact Hrp].
Defined.

(** ** The ancillary buffers *)

Lemma oobInv_assign (ms : list Message) (i : nat) (m m' : Message) :
  Forall (fun x => len (OOB x) = Z.to_nat oobBufferSize
                   /\ cap (OOB x) = Z.to_nat oobBufferSize) ms ->
  nth_error ms i = Some m ->
  OOB m' = OOB m ->
  Forall (fun x => len (OOB x) = Z.to_nat oobBufferSize
                   /\ cap (OOB x) = Z.to_nat oobBufferSize) (assign ms i m').
Proof.
  intros Hall Hnth Hoob. apply Forall_assign; [exact Hall|].
  rewrite Hoob. rewrite Forall_forall in Hall. apply Hall.
  eapply nth_error_In. exact Hnth.
Qed.

Lemma refillSlot_oob {P : Protocol} (i : Z) (c : oobConn) (g : globals) :
  oobInv c -> oobInv (fst (fst (refillSlot i c g))).
Proof.
  intros Hinv. unfold refillSlot. destruct (getPacketBuffer g) as [buf g1].
  destruct (sliceTo (Data buf) (Z.of_nat MaxPacketBufferSize)); try exact Hinv.
  destruct (i <? Z.of_nat (length (buffers c))); try exact Hinv.
  cbn [set_conn messages].
  unfold index.
  destruct ((0 <=? i) && (i <? Z.of_nat (len (messages c)))); try exact Hinv.
  destruct (nth_error (mem (messages c)) (Z.to_nat i)) as [m|] eqn:Hnth; try exact Hinv.
  destruct (Buffers m); try exact Hinv.
  unfold oobInv. cbn [fst set_conn messages mem].
  eapply oobInv_assign; [exact Hinv | exact Hnth | reflexivity].
Qed.

Lemma refillLoop_oob {P : Protocol} (todo : nat) (i : Z) (c : oobConn) (g : globals) :
  oobInv c -> oobInv (fst (fst (refillLoop todo i c g))).
Proof.
  revert i c g. induction todo as [|todo IH]; intros i c g Hinv; cbn [refillLoop];
    [exact Hinv|].
  pose proof (refillSlot_oob i c g Hinv) as Hc.
  destruct (refillSlot i c g) as [[c1 g1] [u| |]]; cbn [fst] in *; try exact Hc.
  apply IH. exact Hc.
Qed.

Lemma writeDatagrams_oob (ds : list datagram) (ms : list Message) :
  Forall (fun x => len (OOB x) = Z.to_nat oobBufferSize
                   /\ cap (OOB x) = Z.to_nat oobBufferSize) ms ->
  Forall (fun x => len (OOB x) = Z.to_nat oobBufferSize
                   /\ cap (OOB x) = Z.to_nat oobBufferSize) (writeDatagrams ds ms).
Proof.
  intros Hms. revert ds. induction Hms as [|m ms Hm Hms IH]; intros [|d ds];
    cbn [writeDatagrams]; try constructor; auto.
  unfold writeDatagram, overwriteSlice, cap in *. cbn [OOB mem len].
  rewrite length_overwrite. exact Hm.
Qed.

Lemma ReadBatch_effect_oob (e : recvEnv) (ms : slice Message) :
  Forall (fun x => len (OOB x) = Z.to_nat oobBufferSize
                   /\ cap (OOB x) = Z.to_nat oobBufferSize) (mem ms) ->
  Forall (fun x => len (OOB x) = Z.to_nat oobBufferSize
                   /\ cap (OOB x) = Z.to_nat oobBufferSize) (mem (ReadBatch_effect e ms)).
Proof.
  intros Hall. unfold ReadBatch_effect. cbn [mem].
  rewrite <- (firstn_skipn (len ms) (mem ms)) in Hall.
  apply Forall_app in Hall. destruct Hall as [Hf Hs].
  apply Forall_app. split; [apply writeDatagrams_oob; exact Hf | exact Hs].
Qed.

Lemma sliceTo_mem {A : Type} (b b' : slice A) (n : Z) :
  sliceTo b n = Ok b' -> mem b' = mem b.
Proof.
  unfold sliceTo, reslice.
  destruct ((0 <=? 0) && (0 <=? n) && (n <=? Z.of_nat (cap b))); [|discriminate].
  intros H. injection H as <-. reflexivity.
Qed.

Lemma readNextBatch_oob {P : Protocol} (e : recvEnv) (c : oobConn) (g : globals) :
  oobInv c -> oobInv (fst (fst (readNextBatch e c g))).
Proof.
  intros Hinv. unfold readNextBatch.
  destruct (sliceTo (messages c) batchSize) as [ms| |] eqn:Hs; try exact Hinv.
  apply sliceTo_mem in Hs.
  match goal with |- context [refillLoop ?t ?i ?c' g] =>
    assert (Hl : oobInv (fst (fst (refillLoop t i c' g))))
      by (apply refillLoop_oob; unfold oobInv, set_conn; cbn [messages]; rewrite Hs;
          exact Hinv);
    destruct (refillLoop t i c' g) as [[c1 g1] [u| |]] end;
    cbn [fst] in *; try exact Hl.
  assert (Hr : Forall (fun x => len (OOB x) = Z.to_nat oobBufferSize
                                /\ cap (OOB x) = Z.to_nat oobBufferSize)
                      (mem (ReadBatch_effect e (messages c1))))
    by (apply ReadBatch_effect_oob; exact Hl).
  cbn [set_conn messages readPos buffers].
  destruct ((rbN e =? 0) || negb (isNil (rbErr e))).
  - destruct (rbErr e); exact Hr.
  - destruct (sliceTo (ReadBatch_effect e (messages c1)) (rbN e)) as [ms'| |] eqn:Hs';
      try exact Hr.
    apply sliceTo_mem in Hs'. unfold oobInv. cbn [fst set_conn messages]. rewrite Hs'.
    exact Hr.
Qed.

Lemma takeSlot_messages (e : recvEnv) (c : oobConn) :
  messages (fst (takeSlot e c)) = messages c.
Proof.
  unfold takeSlot.
  destruct (index (messages c) (readPos c)) as [msg| |]; try reflexivity.
  destruct (nth_error (buffers c) (Z.to_nat (readPos c))); try reflexivity.
  destruct (sliceTo (OOB msg) (NN msg)); try reflexivity.
  destruct (Buffers msg) as [|b0 rest]; try reflexivity.
  destruct (sliceTo b0 (N_ msg)); reflexivity.
Qed.

Lemma ReadPacket_oob {P : Protocol} (e : recvEnv) (c : oobConn) (g : globals) :
  oobInv c -> oobInv (fst (fst (ReadPacket e c g))).
Proof.
  intros Hinv. destruct (ReadPacket_conn e c g) as [-> _].
  unfold nextSlot.
  destruct (Z.of_nat (len (messages c)) =? readPos c).
  - pose proof (readNextBatch_oob e c g Hinv) as Hc.
    destruct (readNextBatch e c g) as [[c1 g1] [[p|]| |]]; cbn [fst] in *; try exact Hc.
    pose proof (takeSlot_messages e c1) as Ht.
    destruct (takeSlot e c1) as [c2 [slot| |]]; cbn [fst] in *;
      unfold oobInv; rewrite Ht; exact Hc.
  - pose proof (takeSlot_messages e c) as Ht.
    destruct (takeSlot e c) as [c2 [slot| |]]; cbn [fst] in *;
      unfold oobInv; rewrite Ht; exact Hinv.
Qed.

(** X19. [ReadPacket] never replaces or resizes the ancillary buffers that
    [newConn] allocates: over any sequence of calls on a fresh connection,
    whatever the operating system answers, every slot has a 128-byte
    ancillary buffer at the entry and at the exit of each call. *)
Theorem ancillary_buffers_kept {P : Protocol} (supportsDF gso : bool) (g : globals)
  (es : list recvEnv) :
  Forall (fun r => oobInv (entryConn r) /\ oobInv (exitConn r))
         (readPackets es (initConn supportsDF gso) g).
Proof.
  assert (H0 : oobInv (initConn supportsDF gso)).
  { unfold oobInv, initConn, sliceOf, cap. cbn [messages mem].
    apply Forall_forall. intros m Hm. apply repeat_spec in Hm. subst m.
    cbn [OOB len mem]. rewrite repeat_length. split; reflexivity. }
  revert H0. generalize (initConn supportsDF gso) as c. revert g.
  induction es as [|e es IH]; intros g c Hc; cbn [readPackets]; [constructor|].
  pose proof (ReadPacket_oob e c g Hc) as H1.
  destruct (ReadPacket e c g) as [[c1 g1] r]. cbn [fst] in H1.
  constructor; [cbn [entryConn exitConn]; auto | apply IH; exact H1].
Qed.
